(** * Nighthawk test server: request-time configuration, delay computation
    and time tracking

    A shallow embedding of

    - [source/server/http_filter_config_base.cc]
      ([FilterConfigurationBase]),
    - [source/server/http_time_tracking_filter.cc]
      ([HttpTimeTrackingFilter]),
    - [source/server/http_dynamic_delay_filter.h]
      ([HttpDynamicDelayDecoderFilterConfig], [HttpDynamicDelayDecoderFilter]),

    followed by the properties of these definitions.

    Conventions.  Fixed-width integers are [Z] with the wrap-around written
    out.  A [std::shared_ptr] is an address into a store of objects (a list
    with stdpp's lookup), so that aliasing and copies are visible.  Calls on
    Envoy's callback objects are modelled by the state they leave behind
    (the list of local replies, the response header map). *)

From Stdlib Require Import ZArith Lia List String Ascii Bool Permutation.
From Stdlib Require Import DecimalString DecimalPos DecimalN SpecFloat.
From stdpp Require Import base option list strings.
Import ListNotations.

Open Scope string_scope.
Open Scope list_scope.
Open Scope Z_scope.

(** ** absl::StatusOr *)

Inductive StatusCode := kInvalidArgument | kUnknown.

(** [absl::StatusOr<T>]: either a value or a non-OK status with its
    message. *)
Inductive StatusOr (T : Type) :=
| OkValue (value : T)
| ErrorStatus (code : StatusCode) (message : string).
Arguments OkValue {T} value.
Arguments ErrorStatus {T} code message.

Definition InvalidArgumentError {T : Type} (message : string) : StatusOr T :=
  ErrorStatus kInvalidArgument message.

(** A default-constructed [absl::StatusOr] holds an error of code
    [kUnknown] with an empty message. *)
Definition StatusOr_default {T : Type} : StatusOr T := ErrorStatus kUnknown "".

Definition ok {T : Type} (s : StatusOr T) : bool :=
  match s with OkValue _ => true | ErrorStatus _ _ => false end.

Definition status_message {T : Type} (s : StatusOr T) : string :=
  match s with OkValue _ => "" | ErrorStatus _ m => m end.

(** ** What the filters take from the rest of the server

    The protobuf message [nighthawk::server::ResponseOptions], its JSON
    merge [Configuration::mergeJsonConfig] and the header name registry
    [TestServer::HeaderNames] are declared outside the files embedded
    here.  The filters are written against this interface.

    [mergeJsonConfig json config error_message] has two reference
    parameters in the source; here it returns its boolean together with the
    final contents of [config] and of [error_message]. *)
Class ServerApi := {
  ResponseOptions : Type;
  ResponseOptions_default : ResponseOptions;
  mergeJsonConfig :
    string -> ResponseOptions -> string -> bool * ResponseOptions * string;
  emit_previous_request_delta_in_response_header : ResponseOptions -> string;
  TestServerConfig : string;
}.

(** ** Header maps *)

(** A header map is the list of its entries (key, value), in order.  A key
    may occur in several entries. *)
Definition HeaderMap := list (string * string).

(** [HeaderMap::get]: the values of all the entries with the given key. *)
Definition get (key : string) (headers : HeaderMap) : list string :=
  map snd (List.filter (fun entry => String.eqb (fst entry) key) headers).

Definition ascii_lower (c : ascii) : ascii :=
  let n := nat_of_ascii c in
  if andb (Nat.leb 65 n) (Nat.leb n 90) then ascii_of_nat (n + 32) else c.

(** [Envoy::Http::LowerCaseString]: the constructor lowers the ASCII
    letters. *)
Fixpoint LowerCaseString (s : string) : string :=
  match s with
  | EmptyString => EmptyString
  | String c rest => String (ascii_lower c) (LowerCaseString rest)
  end.

(** [HeaderMapImpl::appendToHeader]: nothing is appended for empty data;
    the comma is written only after a value that is not empty. *)
Definition appendToHeader (header data : string) : string :=
  if String.eqb data "" then header
  else if String.eqb header "" then data
  else header +:+ "," +:+ data.

(** [HeaderMap::appendCopy]: when an entry with this key exists, the value
    is appended to the first such entry by [appendToHeader]; otherwise a
    new entry is added at the end. *)
Fixpoint appendCopy (key value : string) (headers : HeaderMap) : HeaderMap :=
  match headers with
  | [] => [(key, value)]
  | (k, v) :: rest =>
      if String.eqb k key then (k, appendToHeader v value) :: rest
      else (k, v) :: appendCopy key value rest
  end.

(** ** The store of shared configuration objects *)

(** Address of a [ResponseOptions] object: a [std::shared_ptr]. *)
Definition EffectiveFilterConfigurationPtr := nat.

(** The store: the objects allocated so far, each at its index. *)
Abbreviation Store := (list ResponseOptions).

Section Store.
Context `{ServerApi}.

(** [std::make_shared]: a new object at a fresh address. *)
Definition make_shared (object : ResponseOptions) (store : Store)
  : EffectiveFilterConfigurationPtr * Store :=
  (length store, store ++ [object]).

(** [*p].  The default is returned at an address that was never allocated;
    no state built by the constructors below holds such an address. *)
Definition deref (store : Store) (p : EffectiveFilterConfigurationPtr)
  : ResponseOptions :=
  default ResponseOptions_default (store !! p).

End Store.

(** ** http_filter_config_base.cc *)

Section FilterConfigurationBase.
Context `{ServerApi}.

Record FilterConfigurationBase := {
  filter_name_ : string;
  server_config_ : EffectiveFilterConfigurationPtr;
}.

(** The constructor copies [proto_config] into a new shared object. *)
Definition FilterConfigurationBase_new
  (proto_config : ResponseOptions) (filter_name : string) (store : Store)
  : FilterConfigurationBase * Store :=
  let '(p, store) := make_shared proto_config store in
  ({| filter_name_ := filter_name; server_config_ := p |}, store).

Definition computeEffectiveConfiguration
  (self : FilterConfigurationBase) (headers : HeaderMap) (store : Store)
  : StatusOr EffectiveFilterConfigurationPtr * Store :=
  let request_config_header := get TestServerConfig headers in
  if Nat.eqb (length request_config_header) 1 then
    let response_options := deref store (server_config_ self) in
    let error_message := "" in
    let '(merged, response_options, error_message) :=
      mergeJsonConfig (nth 0 request_config_header "")
                      response_options error_message in
    if merged then
      let '(p, store) := make_shared response_options store in
      (OkValue p, store)
    else (InvalidArgumentError error_message, store)
  else if Nat.ltb 1 (length request_config_header) then
    (InvalidArgumentError
       "Received multiple configuration headers in the request, expected only one.",
     store)
  else (OkValue (server_config_ self), store).

(** The store after the requests with the given header maps were resolved
    one after the other. *)
Definition computeEffectiveConfiguration_all
  (self : FilterConfigurationBase) (requests : list HeaderMap) (store : Store)
  : Store :=
  fold_left
    (fun store headers => snd (computeEffectiveConfiguration self headers store))
    requests store.

(** [Envoy::Http::StreamDecoderFilterCallbacks]: the local replies sent so
    far, each with its status code and body. *)
Record StreamDecoderFilterCallbacks := {
  local_replies : list (Z * string);
}.

Definition sendLocalReply (code : Z) (body : string)
  (callbacks : StreamDecoderFilterCallbacks) : StreamDecoderFilterCallbacks :=
  {| local_replies := local_replies callbacks ++ [(code, body)] |}.

Definition validateOrSendError
  (self : FilterConfigurationBase)
  (effective_config : StatusOr EffectiveFilterConfigurationPtr)
  (decoder_callbacks : StreamDecoderFilterCallbacks)
  : bool * StreamDecoderFilterCallbacks :=
  if negb (ok effective_config) then
    (true,
     sendLocalReply 500
       (filter_name_ self +:+ " didn't understand the request: "
          +:+ status_message effective_config)
       decoder_callbacks)
  else (false, decoder_callbacks).

End FilterConfigurationBase.

(** ** http_time_tracking_filter.cc *)

Inductive FilterHeadersStatus := HeadersContinue | HeadersStopIteration.
Inductive FilterDataStatus := DataContinue | DataStopIterationNoBuffer.

(** Modelled from the spec: [ThreadSafeMontonicTimeStopwatch] is defined
    outside the files embedded here.  Spec 4.4: the call returns the gap
    between [now] and the previously stored timestamp and stores [now] as
    the new reference; the first call returns 0. *)
Definition Stopwatch := option Z.

Definition getElapsedNsAndReset (stopwatch : Stopwatch) (now : Z)
  : Z * Stopwatch :=
  match stopwatch with
  | None => (0, Some now)
  | Some previous => (now - previous, Some now)
  end.

(** [absl::StrCat] of one unsigned integer: its decimal digits. *)
Definition StrCat (n : Z) : string :=
  NilZero.string_of_uint (N.to_uint (Z.to_N n)).

(** The number that a decimal text denotes, when it is one. *)
Definition decimal_value (text : string) : option Z :=
  option_map (fun digits => Z.of_N (N.of_uint digits))
             (NilZero.uint_of_string text).

Section HttpTimeTrackingFilter.
Context `{ServerApi}.

(** The configuration object is shared by the filters created from it:
    the operations below receive it as an argument and return it when they
    change it. *)
Record HttpTimeTrackingFilterConfig := {
  time_tracking_base : FilterConfigurationBase;
  stopwatch_ : Stopwatch;
}.

Definition HttpTimeTrackingFilterConfig_new
  (experimental_response_options : ResponseOptions) (store : Store)
  : HttpTimeTrackingFilterConfig * Store :=
  let '(base, store) :=
    FilterConfigurationBase_new experimental_response_options
                                "time-tracking" store in
  ({| time_tracking_base := base; stopwatch_ := None |}, store).

Definition getElapsedNanosSinceLastRequest
  (self : HttpTimeTrackingFilterConfig) (now : Z)
  : Z * HttpTimeTrackingFilterConfig :=
  let '(elapsed, stopwatch) := getElapsedNsAndReset (stopwatch_ self) now in
  (elapsed,
   {| time_tracking_base := time_tracking_base self;
      stopwatch_ := stopwatch |}).

(** One filter per request stream.  [decoder_callbacks_] is the callbacks
    object of that stream, kept here with the filter that points to it. *)
Record HttpTimeTrackingFilter := {
  effective_config_ : StatusOr EffectiveFilterConfigurationPtr;
  last_request_delta_ns_ : Z;
  decoder_callbacks_ : StreamDecoderFilterCallbacks;
}.

(** The constructor only stores the pointer to the configuration;
    [effective_config_] is default-constructed, and
    [last_request_delta_ns_] is assigned by [setDecoderFilterCallbacks]
    before it is read. *)
Definition HttpTimeTrackingFilter_new : HttpTimeTrackingFilter :=
  {| effective_config_ := StatusOr_default;
     last_request_delta_ns_ := 0;
     decoder_callbacks_ := {| local_replies := [] |} |}.

Definition decodeHeaders
  (config_ : HttpTimeTrackingFilterConfig) (self : HttpTimeTrackingFilter)
  (headers : HeaderMap) (end_stream : bool) (store : Store)
  : FilterHeadersStatus * HttpTimeTrackingFilter * Store :=
  let '(effective_config, store) :=
    computeEffectiveConfiguration (time_tracking_base config_) headers store in
  if end_stream then
    let '(sent, callbacks) :=
      validateOrSendError (time_tracking_base config_) effective_config
                          (decoder_callbacks_ self) in
    let self := {| effective_config_ := effective_config;
                   last_request_delta_ns_ := last_request_delta_ns_ self;
                   decoder_callbacks_ := callbacks |} in
    if sent then (HeadersStopIteration, self, store)
    else (HeadersContinue, self, store)
  else
    (HeadersContinue,
     {| effective_config_ := effective_config;
        last_request_delta_ns_ := last_request_delta_ns_ self;
        decoder_callbacks_ := decoder_callbacks_ self |},
     store).

Definition decodeData
  (config_ : HttpTimeTrackingFilterConfig) (self : HttpTimeTrackingFilter)
  (end_stream : bool)
  : FilterDataStatus * HttpTimeTrackingFilter :=
  if end_stream then
    let '(sent, callbacks) :=
      validateOrSendError (time_tracking_base config_)
                          (effective_config_ self) (decoder_callbacks_ self) in
    let self := {| effective_config_ := effective_config_ self;
                   last_request_delta_ns_ := last_request_delta_ns_ self;
                   decoder_callbacks_ := callbacks |} in
    if sent then (DataStopIterationNoBuffer, self) else (DataContinue, self)
  else (DataContinue, self).

Definition encodeHeaders
  (self : HttpTimeTrackingFilter) (response_headers : HeaderMap)
  (store : Store)
  : FilterHeadersStatus * HeaderMap :=
  match effective_config_ self with
  | OkValue value =>
      let previous_request_delta_in_response_header :=
        emit_previous_request_delta_in_response_header (deref store value) in
      if andb (negb (String.eqb previous_request_delta_in_response_header ""))
              (0 <? last_request_delta_ns_ self)
      then
        (HeadersContinue,
         appendCopy (LowerCaseString previous_request_delta_in_response_header)
                    (StrCat (last_request_delta_ns_ self)) response_headers)
      else (HeadersContinue, response_headers)
  | ErrorStatus _ _ => (HeadersContinue, response_headers)
  end.

Definition setDecoderFilterCallbacks
  (config_ : HttpTimeTrackingFilterConfig) (self : HttpTimeTrackingFilter)
  (callbacks : StreamDecoderFilterCallbacks) (now : Z)
  : HttpTimeTrackingFilter * HttpTimeTrackingFilterConfig :=
  let '(elapsed, config_) := getElapsedNanosSinceLastRequest config_ now in
  ({| effective_config_ := effective_config_ self;
      last_request_delta_ns_ := elapsed;
      decoder_callbacks_ := callbacks |},
   config_).

(** The decoding callbacks of one request, in the order Envoy makes them:
    the headers, then the body in zero or more pieces. *)
Inductive DecodeCall :=
| CallDecodeHeaders (headers : HeaderMap) (end_stream : bool)
| CallDecodeData (end_stream : bool).

Definition decode_call
  (config_ : HttpTimeTrackingFilterConfig)
  (state : HttpTimeTrackingFilter * Store) (call : DecodeCall)
  : HttpTimeTrackingFilter * Store :=
  let '(self, store) := state in
  match call with
  | CallDecodeHeaders headers end_stream =>
      let '(_, self, store) :=
        decodeHeaders config_ self headers end_stream store in
      (self, store)
  | CallDecodeData end_stream =>
      let '(_, self) := decodeData config_ self end_stream in
      (self, store)
  end.

Definition decode_calls
  (config_ : HttpTimeTrackingFilterConfig)
  (state : HttpTimeTrackingFilter * Store) (calls : list DecodeCall)
  : HttpTimeTrackingFilter * Store :=
  fold_left (decode_call config_) calls state.

End HttpTimeTrackingFilter.

(** ** http_dynamic_delay_filter.h *)

Definition UINT64_MODULUS : Z := 2 ^ 64.

(** The process-wide state of this translation unit: the function-local
    static [std::atomic<uint64_t>] of [instances()], absent until its first
    use. *)
Record Process := {
  instances_static : option Z;
}.

Definition process_start : Process := {| instances_static := None |}.

(** References to Envoy objects are kept by identity. *)
Record HttpDynamicDelayDecoderFilterConfig := {
  dynamic_delay_base : FilterConfigurationBase;
  runtime_ : nat;
  stats_prefix_ : string;
  scope_ : nat;
  time_source_ : nat;
}.

(** [instances()]: constructs the atomic with 0 on first use and returns
    it.  It is a static member function: it does not receive [this]. *)
Definition instances (process : Process) : Z * Process :=
  match instances_static process with
  | Some count => (count, process)
  | None => (0, {| instances_static := Some 0 |})
  end.

(** [instances()++] and [instances()--] are each one atomic
    read-modify-write on the [uint64_t]. *)
Definition incrementFilterInstanceCount
  (self : HttpDynamicDelayDecoderFilterConfig) (process : Process) : Process :=
  let '(count, _) := instances process in
  {| instances_static := Some ((count + 1) mod UINT64_MODULUS) |}.

Definition decrementFilterInstanceCount
  (self : HttpDynamicDelayDecoderFilterConfig) (process : Process) : Process :=
  let '(count, _) := instances process in
  {| instances_static := Some ((count - 1) mod UINT64_MODULUS) |}.

Definition approximateFilterInstances
  (self : HttpDynamicDelayDecoderFilterConfig) (process : Process)
  : Z * Process :=
  instances process.

(** The atomic operations of the threads take effect one at a time, in
    some order: an execution is the list of the operations in that order,
    each with the configuration object it was called on. *)
Inductive CounterOp := Increment | Decrement.

Definition counter_step (process : Process)
  (op : HttpDynamicDelayDecoderFilterConfig * CounterOp) : Process :=
  match snd op with
  | Increment => incrementFilterInstanceCount (fst op) process
  | Decrement => decrementFilterInstanceCount (fst op) process
  end.

Definition counter_run (process : Process)
  (ops : list (HttpDynamicDelayDecoderFilterConfig * CounterOp)) : Process :=
  fold_left counter_step ops process.

(** The change that an execution makes to the count, before wrap-around. *)
Definition net_change (ops : list CounterOp) : Z :=
  fold_right
    (fun op total =>
       match op with Increment => total + 1 | Decrement => total - 1 end)
    0 ops.

(** Two configuration objects for the examples. *)
Definition example_config_a : HttpDynamicDelayDecoderFilterConfig :=
  {| dynamic_delay_base :=
       {| filter_name_ := "dynamic-delay"; server_config_ := 0%nat |};
     runtime_ := 0%nat; stats_prefix_ := "listener_a.";
     scope_ := 0%nat; time_source_ := 0%nat |}.

Definition example_config_b : HttpDynamicDelayDecoderFilterConfig :=
  {| dynamic_delay_base :=
       {| filter_name_ := "dynamic-delay"; server_config_ := 1%nat |};
     runtime_ := 0%nat; stats_prefix_ := "listener_b.";
     scope_ := 0%nat; time_source_ := 0%nat |}.

(** *** Durations and binary64 arithmetic *)

(** Modelled from the spec: [google::protobuf::Duration], its operators [+]
    and [*] and [TimeUtil::DurationToNanoseconds] are declared outside the
    files embedded here.  Spec 4.3: the sum [minimal_delay + concurrency *
    delay_factor] is computed in nanosecond precision.  A duration is its
    pair of seconds and nanoseconds; the operators act on the count of
    nanoseconds and split the result again. *)
Record Duration := {
  seconds : Z;
  nanos : Z;
}.

Definition kNanosPerSecond : Z := 1000000000.

Definition DurationToNanoseconds (d : Duration) : Z :=
  seconds d * kNanosPerSecond + nanos d.

Definition NanosecondsToDuration (n : Z) : Duration :=
  {| seconds := Z.quot n kNanosPerSecond; nanos := Z.rem n kNanosPerSecond |}.

Definition Duration_add (a b : Duration) : Duration :=
  NanosecondsToDuration (DurationToNanoseconds a + DurationToNanoseconds b).

Definition Duration_mul (r : Z) (d : Duration) : Duration :=
  NanosecondsToDuration (r * DurationToNanoseconds d).

(** A C++ [double] is an IEEE 754 binary64 number: [spec_float] at
    precision 53 and maximal exponent 1024, with the operations of the
    standard library's specification of floating-point arithmetic, which
    round to nearest, ties to even. *)
Definition prec : Z := 53.
Definition emax : Z := 1024.
Definition double := spec_float.

(** The conversion of an integer to [double]. *)
Definition double_of_int64 (n : Z) : double :=
  binary_normalize prec emax n 0 false.

(** The literal [1e6]. *)
Definition double_1e6 : double := double_of_int64 1000000.

Definition double_div (x y : double) : double := SFdiv prec emax x y.

(** [std::round]: the nearest integer, halfway cases away from zero.  A
    finite number with a non-negative exponent is an integer already. *)
Definition std_round (x : double) : double :=
  match x with
  | S754_finite s m e =>
      if 0 <=? e then x
      else
        binary_normalize prec emax
          (cond_Zopp s ((Zpos m + 2 ^ (- e - 1)) / 2 ^ (- e))) 0 s
  | _ => x
  end.

Definition INT64_MIN : Z := - 2 ^ 63.
Definition INT64_MAX : Z := 2 ^ 63 - 1.

(** The conversion of a [double] to [int64_t] drops the fractional part.
    It is undefined ([None]) when the result does not fit, and for
    infinities and NaN. *)
Definition int64_of_double (x : double) : option Z :=
  match x with
  | S754_zero _ => Some 0
  | S754_finite s m e =>
      let truncated :=
        cond_Zopp s (if 0 <=? e then Zpos m * 2 ^ e else Zpos m / 2 ^ (- e)) in
      if andb (INT64_MIN <=? truncated) (truncated <=? INT64_MAX)
      then Some truncated else None
  | _ => None
  end.

(** [concurrency] is a [uint64_t]; the result is the [int64_t] the source
    returns, when the final conversion is defined. *)
Definition computeConcurrencyBasedLinearDelayMs
  (concurrency : Z) (minimal_delay delay_factor : Duration) : option Z :=
  int64_of_double
    (std_round
       (double_div
          (double_of_int64
             (DurationToNanoseconds
                (Duration_add minimal_delay
                              (Duration_mul concurrency delay_factor))))
          double_1e6)).

(** The nearest integer to [num / den], for [den > 0], halfway cases away
    from zero: what the delay is compared with. *)
Definition round_half_away (num den : Z) : Z :=
  Z.sgn num * ((2 * Z.abs num + den) / (2 * den)).

Definition milliseconds (ms : Z) : Duration :=
  NanosecondsToDuration (ms * 1000000).

(** The mantissa of [double_1e6]: 10^6 * 2^33, with exponent -33. *)
Definition D1e6 : Z := 8589934592000000.

(** [located num den m l]: [m] is the integer part of [num / den] and the
    location [l] tells where [num / den] lies between [m] and [m + 1]:
    on [m], below, at or above the middle. *)
Definition located (num den m : Z) (l : location) : Prop :=
  let r := num - m * den in
  0 <= r < den
  /\ match l with
     | loc_Exact => r = 0
     | loc_Inexact c => 0 < r /\ (2 * r ?= den) = c
     end.

(** [near num den m]: [m] is [num / den] rounded down or up, and up only
    from the middle or above. *)
Definition near (num den m : Z) : Prop :=
  num / den <= m <= num / den + 1
  /\ (m = num / den + 1 -> den <= 2 * (num mod den)).

(** ** The configuration merge of the specification *)

(** Modelled from the spec: [Configuration::mergeJsonConfig] and the
    message [ResponseOptions] are defined outside the files embedded here.
    Spec 4.1: the override value is parsed as a JSON-encoded partial
    configuration and deep-merged onto a copy of the base configuration;
    fields present in the override replace the corresponding base fields,
    unspecified fields retain their base values; if parsing or merging
    fails, the error carries the message.

    A configuration is a JSON value.  The spec fixes neither the JSON
    grammar nor the schema validation: the parser and the validation are
    taken as given. *)
#[warnings="-register-all"]
Inductive Json :=
| JNumber (n : Z)
| JString (s : string)
| JBool (b : bool)
| JArray (items : list Json)
| JObject (fields : list (string * Json)).

Fixpoint get_field (key : string) (fields : list (string * Json))
  : option Json :=
  match fields with
  | [] => None
  | (k, v) :: rest => if String.eqb k key then Some v else get_field key rest
  end.

Definition has_field (key : string) (fields : list (string * Json)) : bool :=
  match get_field key fields with Some _ => true | None => false end.

Definition is_object (j : Json) : bool :=
  match j with JObject _ => true | _ => false end.

(** [f] applied to the value of every field, with the field's name. *)
Fixpoint map_fields (f : string -> Json -> Json)
  (fields : list (string * Json)) : list (string * Json) :=
  match fields with
  | [] => []
  | (k, v) :: rest => (k, f k v) :: map_fields f rest
  end.

(** The deep merge: two objects are merged field by field, the fields that
    only the override has are added; anything else is replaced by the
    override. *)
Fixpoint deep_merge (base override : Json) {struct base} : Json :=
  match base, override with
  | JObject base_fields, JObject override_fields =>
      JObject
        (map_fields
           (fun k b =>
              match get_field k override_fields with
              | Some o => deep_merge b o
              | None => b
              end)
           base_fields
         ++ List.filter (fun field => negb (has_field (fst field) base_fields))
                        override_fields)
  | _, _ => override
  end.

(** The value found by following field names from the root. *)
Fixpoint lookup_path (path : list string) (j : Json) : option Json :=
  match path with
  | [] => Some j
  | key :: rest =>
      match j with
      | JObject fields =>
          match get_field key fields with
          | Some child => lookup_path rest child
          | None => None
          end
      | _ => None
      end
  end.

(** The override leaves a path unspecified when, following the path, it
    reaches an object that lacks the next field name. *)
Fixpoint unspecified (path : list string) (override : Json) : bool :=
  match path, override with
  | key :: rest, JObject fields =>
      match get_field key fields with
      | Some child => unspecified rest child
      | None => true
      end
  | _, _ => false
  end.

Section SpecMerge.
Variable parse_json : string -> Json + string.
Variable validate : Json -> option string.
Variable override_header_name : string.

Definition spec_mergeJsonConfig
  (json : string) (config : Json) (error_message : string)
  : bool * Json * string :=
  match parse_json json with
  | inr message => (false, config, message)
  | inl override =>
      let merged := deep_merge config override in
      match validate merged with
      | Some message => (false, merged, message)
      | None => (true, merged, "")
      end
  end.

Definition spec_emit_previous_request_delta_in_response_header
  (config : Json) : string :=
  match lookup_path ["emit_previous_request_delta_in_response_header"] config
  with
  | Some (JString name) => name
  | _ => ""
  end.

Definition SpecApi : ServerApi :=
  {| ResponseOptions := Json;
     ResponseOptions_default := JObject [];
     mergeJsonConfig := spec_mergeJsonConfig;
     emit_previous_request_delta_in_response_header :=
       spec_emit_previous_request_delta_in_response_header;
     TestServerConfig := override_header_name |}.

End SpecMerge.

(** A small instance for the examples: a parser that knows two override
    texts, and no validation failure. *)
Definition example_parse_json (json : string) : Json + string :=
  if String.eqb json "{response_code: 429}"
  then inl (JObject [("response_code", JNumber 429)])
  else if String.eqb json "{emit_previous_request_delta_in_response_header: X-Gap-Ns}"
  then inl (JObject [("emit_previous_request_delta_in_response_header",
                      JString "X-Gap-Ns")])
  else inr "Error merging json config: unable to parse".

Definition ExampleApi : ServerApi :=
  SpecApi example_parse_json (fun _ => None) "x-nighthawk-test-server-config".

Definition example_base : Json :=
  JObject [("response_code", JNumber 200);
           ("emit_previous_request_delta_in_response_header",
            JString "x-gap-ns")].

(** A time-tracking configuration built from [example_base] in an empty
    store, and two request header maps. *)
Definition example_time_tracking : HttpTimeTrackingFilterConfig * Store :=
  @HttpTimeTrackingFilterConfig_new ExampleApi example_base [].

Definition example_headers_plain : HeaderMap :=
  [(":path", "/"); ("accept", "*/*")].

Definition example_headers_override : HeaderMap :=
  [(":path", "/");
   ("x-nighthawk-test-server-config", "{response_code: 429}")].

Definition example_headers_duplicate : HeaderMap :=
  [("x-nighthawk-test-server-config", "{response_code: 429}");
   (":path", "/");
   ("x-nighthawk-test-server-config", "not json")].

(** ** Sequences of requests *)

Section Sequences.
Context `{ServerApi}.

(** The store after resolutions made through several configuration
    objects, one after the other: each request comes with the
    configuration object of its filter. *)
Definition computeEffectiveConfiguration_each
  (requests : list (FilterConfigurationBase * HeaderMap)) (store : Store)
  : Store :=
  fold_left
    (fun store request =>
       snd (computeEffectiveConfiguration (fst request) (snd request) store))
    requests store.

End Sequences.

(** Whether a decoding callback carries [end_stream]. *)
Definition call_end_stream (call : DecodeCall) : bool :=
  match call with
  | CallDecodeHeaders _ end_stream => end_stream
  | CallDecodeData end_stream => end_stream
  end.

(** ** The decoding callbacks of the dynamic-delay filter *)

Module DynamicDelay.
Section HttpDynamicDelayDecoderFilter.
Context `{ServerApi}.

(** [computeDelayMs] is declared in [http_dynamic_delay_filter.h] and
    defined in [http_dynamic_delay_filter.cc], outside the files embedded
    here: the callbacks below take it as a parameter, and with it the
    change that a request for a delay of so many milliseconds makes to the
    request headers read by the fault filter. *)
Variable computeDelayMs : ResponseOptions -> Z -> option Z.
Variable fault_filter_delay_request : Z -> HeaderMap -> HeaderMap.

(** Modelled from the spec: [maybeRequestFaultFilterDelay] is declared in
    the header and defined outside the files embedded here.  Its
    declaration: the request is only made when the passed delay is set to
    a value above 0; when not set or [<= 0], the call is a no-op.  Spec 4.5:
    if the instruction carries no delay (absent or [<= 0]), no interaction
    with the collaborator occurs. *)
Definition maybeRequestFaultFilterDelay
  (delay_ms : option Z) (request_headers : HeaderMap) : HeaderMap :=
  match delay_ms with
  | Some delay =>
      if 0 <? delay then fault_filter_delay_request delay request_headers
      else request_headers
  | None => request_headers
  end.

(** The members that the header declares, [config_] apart: as for the
    time-tracking filter, the callbacks receive the configuration object
    as an argument. *)
Record HttpDynamicDelayDecoderFilter := {
  effective_config_ : StatusOr EffectiveFilterConfigurationPtr;
  decoder_callbacks_ : StreamDecoderFilterCallbacks;
  destroyed_ : bool;
}.

(** Modelled from the spec: [HttpDynamicDelayDecoderFilter::decodeHeaders]
    is declared in the header and defined outside the files embedded here.
    Spec 4.5: on request-header receipt the effective configuration is
    resolved; on failure the request is errored, the 500 response is
    emitted and delay computation is skipped entirely, the response being
    deferred to the earliest point at which the stream is known to be
    complete; on success the delay is computed from the effective
    configuration and the concurrency read from the tracker, and handed to
    the delay-enacting stage.  The tracker is incremented when the request
    starts and decremented when it completes (spec 2), not by this call,
    which only reads it.  The result is the state that the call leaves
    behind: the filter with its callbacks object, the request headers as
    the later stages receive them, the store and the process. *)
Definition decodeHeaders
  (config_ : HttpDynamicDelayDecoderFilterConfig)
  (self : HttpDynamicDelayDecoderFilter)
  (headers : HeaderMap) (end_stream : bool) (store : Store)
  (process : Process)
  : HttpDynamicDelayDecoderFilter * HeaderMap * Store * Process :=
  let '(effective_config, store) :=
    computeEffectiveConfiguration (dynamic_delay_base config_) headers store in
  match effective_config with
  | OkValue value =>
      let '(concurrency, process) :=
        approximateFilterInstances config_ process in
      let delay_ms := computeDelayMs (deref store value) concurrency in
      ({| effective_config_ := effective_config;
          decoder_callbacks_ := decoder_callbacks_ self;
          destroyed_ := destroyed_ self |},
       maybeRequestFaultFilterDelay delay_ms headers, store, process)
  | ErrorStatus _ _ =>
      let callbacks :=
        if end_stream
        then snd (validateOrSendError (dynamic_delay_base config_)
                    effective_config (decoder_callbacks_ self))
        else decoder_callbacks_ self in
      ({| effective_config_ := effective_config;
          decoder_callbacks_ := callbacks;
          destroyed_ := destroyed_ self |},
       headers, store, process)
  end.

(** Modelled from the spec: [HttpDynamicDelayDecoderFilter::decodeData] is
    declared in the header and defined outside the files embedded here.
    Spec 4.5: the response to an errored request is deferred to the
    earliest point at which the body stream is known to be complete.  A
    piece of the body carries no request headers: no delay is requested
    here. *)
Definition decodeData
  (config_ : HttpDynamicDelayDecoderFilterConfig)
  (self : HttpDynamicDelayDecoderFilter) (end_stream : bool)
  : HttpDynamicDelayDecoderFilter :=
  if end_stream then
    {| effective_config_ := effective_config_ self;
       decoder_callbacks_ :=
         snd (validateOrSendError (dynamic_delay_base config_)
                (effective_config_ self) (decoder_callbacks_ self));
       destroyed_ := destroyed_ self |}
  else self.

(** The pieces of the body of one request, one after the other. *)
Definition decodeData_all
  (config_ : HttpDynamicDelayDecoderFilterConfig)
  (self : HttpDynamicDelayDecoderFilter) (pieces : list bool)
  : HttpDynamicDelayDecoderFilter :=
  fold_left (decodeData config_) pieces self.

End HttpDynamicDelayDecoderFilter.
End DynamicDelay.

(** * Properties *)

(** ** The store *)

Section StoreFacts.
Context `{ServerApi}.

(** Dereferencing an allocated address. *)
Lemma deref_lookup (store : Store) (p : EffectiveFilterConfigurationPtr)
  (object : ResponseOptions) :
  store !! p = Some object -> deref store p = object.
Proof. intros E. unfold deref. rewrite E. reflexivity. Qed.

(** [make_shared] returns the address of the new object. *)
Lemma lookup_make_shared_new (object : ResponseOptions) (store : Store) :
  snd (make_shared object store) !! fst (make_shared object store)
  = Some object.
Proof. unfold make_shared; simpl. apply list_lookup_middle. reflexivity. Qed.

(** Allocation leaves the objects of the store where they are. *)
Lemma lookup_app_old (store extra : Store)
  (p : EffectiveFilterConfigurationPtr) (object : ResponseOptions) :
  store !! p = Some object -> (store ++ extra) !! p = Some object.
Proof. intros E. apply lookup_app_l_Some. exact E. Qed.

(** Resolving a configuration only ever adds objects to the store. *)
Lemma computeEffectiveConfiguration_extends
  (self : FilterConfigurationBase) (headers : HeaderMap) (store : Store) :
  exists extra,
    snd (computeEffectiveConfiguration self headers store) = store ++ extra.
Proof.
  unfold computeEffectiveConfiguration.
  destruct (Nat.eqb _ 1).
  - destruct (mergeJsonConfig _ _ _) as [[merged response_options] message].
    destruct merged; simpl.
    + eexists; reflexivity.
    + exists []. symmetry. apply app_nil_r.
  - destruct (Nat.ltb 1 _); simpl; exists []; symmetry; apply app_nil_r.
Qed.

(** So does a sequence of resolutions. *)
Lemma computeEffectiveConfiguration_all_extends
  (self : FilterConfigurationBase) (requests : list HeaderMap) (store : Store) :
  exists extra,
    computeEffectiveConfiguration_all self requests store = store ++ extra.
Proof.
  revert store.
  induction requests as [|headers requests IH]; intros store.
  - exists []. symmetry. apply app_nil_r.
  - unfold computeEffectiveConfiguration_all in *. simpl.
    destruct (computeEffectiveConfiguration_extends self headers store)
      as [extra1 E1].
    rewrite E1.
    destruct (IH (store ++ extra1)) as [extra2 E2].
    rewrite E2. exists (extra1 ++ extra2). symmetry. apply app_assoc.
Qed.

End StoreFacts.

(** ** Resolving the effective configuration *)

Section ResolutionFacts.
Context `{ServerApi}.

(** C2.  When the request carries no value for the override header, the
    result is the base configuration itself: the stored pointer
    [server_config_] is returned, the store is left as it was (nothing is
    copied, merged or allocated), and the result is not an error. *)
Theorem computeEffectiveConfiguration_without_override
  (self : FilterConfigurationBase) (headers : HeaderMap) (store : Store)
  (base : ResponseOptions) :
  store !! server_config_ self = Some base ->
  get TestServerConfig headers = [] ->
  exists p,
    computeEffectiveConfiguration self headers store = (OkValue p, store)
    /\ p = server_config_ self
    /\ store !! p = Some base.
Proof.
  intros Hbase Hget. exists (server_config_ self).
  unfold computeEffectiveConfiguration. rewrite Hget. simpl.
  repeat split. exact Hbase.
Qed.

(** C4.  When the request carries two or more values for the override
    header, the result is the duplicate-header error, whatever the values
    are and whatever the merge would have made of them; the store is left as
    it was. *)
Theorem computeEffectiveConfiguration_duplicate_override
  (self : FilterConfigurationBase) (headers : HeaderMap) (store : Store) :
  (2 <= length (get TestServerConfig headers))%nat ->
  computeEffectiveConfiguration self headers store
  = (InvalidArgumentError
       "Received multiple configuration headers in the request, expected only one.",
     store).
Proof.
  intros Hlen. unfold computeEffectiveConfiguration.
  destruct (Nat.eqb_spec (length (get TestServerConfig headers)) 1) as [E|_].
  - lia.
  - destruct (Nat.ltb_spec 1 (length (get TestServerConfig headers))).
    + reflexivity.
    + lia.
Qed.

(** With exactly one override value, the outcome is decided by the merge of
    that value into a copy of the base configuration. *)
Lemma computeEffectiveConfiguration_single_override
  (self : FilterConfigurationBase) (headers : HeaderMap) (store : Store)
  (value : string) :
  get TestServerConfig headers = [value] ->
  computeEffectiveConfiguration self headers store
  = match mergeJsonConfig value (deref store (server_config_ self)) "" with
    | (true, response_options, _) =>
        (OkValue (length store), store ++ [response_options])
    | (false, _, error_message) =>
        (InvalidArgumentError error_message, store)
    end.
Proof.
  intros Hget. unfold computeEffectiveConfiguration. rewrite Hget. simpl.
  destruct (mergeJsonConfig _ _ _) as [[merged response_options] message].
  destruct merged; reflexivity.
Qed.

(** C10.  After construction from [proto_config], and after any sequence of
    resolutions with arbitrary request headers, the object that
    [server_config_] points to is still [proto_config]: the merge works on
    a copy.  A later request without override is handed exactly that
    object. *)
Theorem server_config_never_mutated
  (proto_config : ResponseOptions) (filter_name : string) (store : Store)
  (requests : list HeaderMap) (later : HeaderMap) :
  let '(self, store1) :=
    FilterConfigurationBase_new proto_config filter_name store in
  let store2 := computeEffectiveConfiguration_all self requests store1 in
  store1 !! server_config_ self = Some proto_config
  /\ store2 !! server_config_ self = Some proto_config
  /\ snd (computeEffectiveConfiguration self later store2)
       !! server_config_ self = Some proto_config
  /\ (get TestServerConfig later = [] ->
      exists p,
        fst (computeEffectiveConfiguration self later store2) = OkValue p
        /\ snd (computeEffectiveConfiguration self later store2) !! p
           = Some proto_config).
Proof.
  unfold FilterConfigurationBase_new.
  pose proof (lookup_make_shared_new proto_config store) as Hnew.
  unfold make_shared in *. simpl in *.
  set (self := {| filter_name_ := filter_name;
                  server_config_ := length store |}).
  set (store1 := store ++ [proto_config]) in *.
  destruct (computeEffectiveConfiguration_all_extends self requests store1)
    as [extra2 E2].
  assert (H2 : computeEffectiveConfiguration_all self requests store1
                 !! server_config_ self = Some proto_config).
  { rewrite E2. apply lookup_app_old. exact Hnew. }
  split; [exact Hnew|]. split; [exact H2|].
  split.
  - destruct (computeEffectiveConfiguration_extends self later
                (computeEffectiveConfiguration_all self requests store1))
      as [extra3 E3].
    rewrite E3. apply lookup_app_old. exact H2.
  - intros Hget. exists (server_config_ self).
    unfold computeEffectiveConfiguration at 1 2. rewrite Hget. simpl.
    split; [reflexivity | exact H2].
Qed.

End ResolutionFacts.

(** ** The deep merge of the specification *)

(** The first field with a name, in a concatenation. *)
Lemma get_field_app (key : string) (l1 l2 : list (string * Json)) :
  get_field key (l1 ++ l2)
  = match get_field key l1 with
    | Some v => Some v
    | None => get_field key l2
    end.
Proof.
  induction l1 as [|[k v] l1 IH]; simpl.
  - reflexivity.
  - destruct (String.eqb k key); [reflexivity | exact IH].
Qed.

(** Mapping the values keeps the names. *)
Lemma get_field_map_fields (f : string -> Json -> Json) (key : string)
  (fields : list (string * Json)) :
  get_field key (map_fields f fields)
  = option_map (f key) (get_field key fields).
Proof.
  induction fields as [|[k v] fields IH]; simpl.
  - reflexivity.
  - destruct (String.eqb_spec k key) as [->|_]; [reflexivity | exact IH].
Qed.

(** A name that the base lacks is found among the added fields as it is
    in the override. *)
Lemma get_field_filter_absent (key : string)
  (base_fields override_fields : list (string * Json)) :
  get_field key base_fields = None ->
  get_field key
    (List.filter (fun field => negb (has_field (fst field) base_fields))
                 override_fields)
  = get_field key override_fields.
Proof.
  intros Habsent.
  induction override_fields as [|[k v] fields IH]; simpl.
  - reflexivity.
  - destruct (String.eqb_spec k key) as [->|Hne].
    + unfold has_field. rewrite Habsent. simpl.
      rewrite String.eqb_refl. reflexivity.
    + destruct (negb (has_field k base_fields)); simpl.
      * destruct (String.eqb_spec k key); [contradiction | exact IH].
      * exact IH.
Qed.

(** One field of the merge of two objects. *)
Lemma get_field_deep_merge (key : string)
  (base_fields override_fields : list (string * Json)) :
  lookup_path [key] (deep_merge (JObject base_fields) (JObject override_fields))
  = match get_field key base_fields, get_field key override_fields with
    | Some b, Some o => Some (deep_merge b o)
    | Some b, None => Some b
    | None, o => o
    end.
Proof.
  simpl. rewrite get_field_app, get_field_map_fields.
  destruct (get_field key base_fields) as [b|] eqn:Hb; simpl.
  - destruct (get_field key override_fields); reflexivity.
  - rewrite get_field_filter_absent by exact Hb.
    destruct (get_field key override_fields); reflexivity.
Qed.

(** A path is followed one name at a time. *)
Lemma lookup_path_cons (key : string) (rest : list string) (j : Json) :
  lookup_path (key :: rest) j
  = match lookup_path [key] j with
    | Some child => lookup_path rest child
    | None => None
    end.
Proof.
  simpl. destruct j; try reflexivity.
  destruct (get_field key fields); reflexivity.
Qed.

(** Unless both are objects, the override replaces the base. *)
Lemma deep_merge_not_object (base override : Json) :
  is_object base && is_object override = false ->
  deep_merge base override = override.
Proof. destruct base, override; simpl; intros E; congruence. Qed.

(** The override has no value at a path it leaves unspecified. *)
Lemma unspecified_lookup_path (path : list string) (override : Json) :
  unspecified path override = true -> lookup_path path override = None.
Proof.
  revert override. induction path as [|key rest IH]; intros override.
  - destruct override; discriminate.
  - destruct override; simpl; try discriminate.
    destruct (get_field key fields); [apply IH | reflexivity].
Qed.

(** A value that the override gives at a path is the value of the merge at
    that path. *)
Lemma deep_merge_replaces (path : list string) (base override value : Json) :
  is_object value = false ->
  lookup_path path override = Some value ->
  lookup_path path (deep_merge base override) = Some value.
Proof.
  intros Hvalue. revert base override.
  induction path as [|key rest IH]; intros base override Hlookup.
  - simpl in Hlookup. injection Hlookup as ->.
    rewrite deep_merge_not_object; [reflexivity|].
    rewrite Hvalue. apply andb_false_r.
  - destruct override as [| | | |override_fields]; try discriminate.
    destruct (is_object base) eqn:Hbase.
    + destruct base as [| | | |base_fields]; try discriminate.
      rewrite lookup_path_cons, get_field_deep_merge.
      simpl in Hlookup.
      destruct (get_field key override_fields) as [child|]; [|discriminate].
      destruct (get_field key base_fields) as [b|].
      * apply IH. exact Hlookup.
      * exact Hlookup.
    + rewrite deep_merge_not_object; [exact Hlookup|].
      rewrite Hbase. reflexivity.
Qed.

(** A path that the override leaves unspecified keeps the value it has in
    the base. *)
Lemma deep_merge_retains (path : list string) (base override : Json) :
  unspecified path override = true ->
  lookup_path path (deep_merge base override) = lookup_path path base.
Proof.
  revert base override.
  induction path as [|key rest IH]; intros base override Hun.
  - destruct override; discriminate.
  - destruct override as [| | | |override_fields]; try discriminate.
    destruct (is_object base) eqn:Hbase.
    + destruct base as [| | | |base_fields]; try discriminate.
      rewrite lookup_path_cons, get_field_deep_merge.
      simpl in Hun. simpl.
      destruct (get_field key override_fields) as [child|].
      * destruct (get_field key base_fields) as [b|].
        -- apply IH. exact Hun.
        -- apply unspecified_lookup_path. exact Hun.
      * destruct (get_field key base_fields); reflexivity.
    + rewrite deep_merge_not_object by (rewrite Hbase; reflexivity).
      rewrite (unspecified_lookup_path _ _ Hun).
      destruct base; try reflexivity. discriminate.
Qed.

(** C3.  In the merge of the specification, a request with exactly one
    override value is resolved by parsing the value and deep-merging it
    onto a copy of the base configuration: the result is a new object, the
    base object stays as it was, every value the override gives at a path is
    the value of the result at that path, and every path the override
    leaves unspecified keeps its base value.  When parsing fails, or the
    merged configuration is rejected, the result is the error with the
    message of that failure. *)
Theorem computeEffectiveConfiguration_merges_single_override
  (parse_json : string -> Json + string) (validate : Json -> option string)
  (override_header_name : string)
  (self : FilterConfigurationBase) (headers : HeaderMap) (store : list Json)
  (value : string) (base : Json) :
  let api := SpecApi parse_json validate override_header_name in
  store !! server_config_ self = Some base ->
  get override_header_name headers = [value] ->
  match parse_json value with
  | inl override =>
      match validate (deep_merge base override) with
      | None =>
          exists p store' merged,
            @computeEffectiveConfiguration api self headers store
            = (OkValue p, store')
            /\ p <> server_config_ self
            /\ store' !! server_config_ self = Some base
            /\ store' !! p = Some merged
            /\ merged = deep_merge base override
            /\ (forall path v,
                   lookup_path path override = Some v ->
                   is_object v = false ->
                   lookup_path path merged = Some v)
            /\ (forall path,
                   unspecified path override = true ->
                   lookup_path path merged = lookup_path path base)
      | Some message =>
          @computeEffectiveConfiguration api self headers store
          = (InvalidArgumentError message, store)
      end
  | inr message =>
      @computeEffectiveConfiguration api self headers store
      = (InvalidArgumentError message, store)
  end.
Proof.
  intros api Hbase Hget.
  pose proof (@computeEffectiveConfiguration_single_override
                api self headers store value Hget) as Hsingle.
  rewrite (@deref_lookup api store _ base Hbase) in Hsingle.
  change (@mergeJsonConfig api) with
    (spec_mergeJsonConfig parse_json validate) in Hsingle.
  unfold spec_mergeJsonConfig in Hsingle.
  destruct (parse_json value) as [override|message]; [|exact Hsingle].
  destruct (validate (deep_merge base override)) as [message|];
    [exact Hsingle|].
  exists (length store), (store ++ [deep_merge base override]),
    (deep_merge base override).
  split; [exact Hsingle|].
  split; [apply lookup_lt_Some in Hbase; lia|].
  split; [apply lookup_app_l_Some; exact Hbase|].
  split; [apply list_lookup_middle; reflexivity|].
  split; [reflexivity|]. split.
  - intros path v Hlookup Hv. apply deep_merge_replaces; assumption.
  - intros path Hun. apply deep_merge_retains. exact Hun.
Qed.

(** ** The time-tracking filter *)

(** The length of a concatenation. *)
Lemma string_length_append (s1 s2 : string) :
  String.length (s1 +:+ s2) = (String.length s1 + String.length s2)%nat.
Proof. induction s1 as [|c s1 IH]; simpl; [reflexivity | rewrite IH; reflexivity]. Qed.

(** [appendCopy] of a value that is not empty changes the header map: it
    lengthens a value or adds an entry. *)
Lemma appendCopy_changes (key value : string) (headers : HeaderMap) :
  value <> "" -> appendCopy key value headers <> headers.
Proof.
  intros Hvalue.
  induction headers as [|[k v] rest IH]; simpl.
  - discriminate.
  - destruct (String.eqb k key).
    + intros E. injection E as E. unfold appendToHeader in E.
      destruct (String.eqb_spec value "") as [|_]; [contradiction|].
      destruct (String.eqb_spec v "") as [->|_]; [congruence|].
      apply (f_equal String.length) in E.
      rewrite string_length_append in E. simpl in E. lia.
    + intros E. injection E as E. exact (IH E).
Qed.

(** [StrCat] writes the decimal text of its argument. *)
Lemma decimal_value_StrCat (n : Z) :
  0 <= n -> decimal_value (StrCat n) = Some n.
Proof.
  intros Hn. unfold decimal_value, StrCat.
  rewrite NilZero.usu.
  - simpl. rewrite DecimalN.Unsigned.of_to, Z2N.id by exact Hn. reflexivity.
  - destruct (Z.to_N n) as [|p]; simpl.
    + discriminate.
    + apply DecimalPos.Unsigned.to_uint_nonnil.
Qed.

(** The decimal text of a number above zero is not empty. *)
Lemma StrCat_not_empty (n : Z) : 0 < n -> StrCat n <> "".
Proof.
  intros Hn E. pose proof (decimal_value_StrCat n ltac:(lia)) as Hvalue.
  rewrite E in Hvalue. vm_compute in Hvalue.
  first [discriminate Hvalue | injection Hvalue as Hvalue; lia].
Qed.

Section TimeTrackingFacts.
Context `{ServerApi}.

(** [validateOrSendError] on an error and on a resolved configuration. *)
Lemma validateOrSendError_error
  (self : FilterConfigurationBase) (code : StatusCode) (message : string)
  (callbacks : StreamDecoderFilterCallbacks) :
  validateOrSendError self (ErrorStatus code message) callbacks
  = (true,
     sendLocalReply 500
       (filter_name_ self +:+ " didn't understand the request: " +:+ message)
       callbacks).
Proof. reflexivity. Qed.

Lemma validateOrSendError_ok
  (self : FilterConfigurationBase) (p : EffectiveFilterConfigurationPtr)
  (callbacks : StreamDecoderFilterCallbacks) :
  validateOrSendError self (OkValue p) callbacks = (false, callbacks).
Proof. reflexivity. Qed.

(** What [decodeHeaders] leaves in the filter, whatever [end_stream] is. *)
Lemma decodeHeaders_effective_config
  (config : HttpTimeTrackingFilterConfig) (self : HttpTimeTrackingFilter)
  (headers : HeaderMap) (end_stream : bool) (store : Store) :
  let resolution :=
    computeEffectiveConfiguration (time_tracking_base config) headers store in
  let '(_, after, store') :=
    decodeHeaders config self headers end_stream store in
  effective_config_ after = fst resolution
  /\ last_request_delta_ns_ after = last_request_delta_ns_ self
  /\ store' = snd resolution.
Proof.
  unfold decodeHeaders.
  destruct (computeEffectiveConfiguration _ headers store)
    as [effective_config store'].
  destruct end_stream.
  - destruct effective_config; simpl; auto.
  - simpl; auto.
Qed.

(** Without [end_stream], the decoding callbacks send nothing. *)
Lemma decodeHeaders_not_end_stream
  (config : HttpTimeTrackingFilterConfig) (self : HttpTimeTrackingFilter)
  (headers : HeaderMap) (store : Store) :
  let '(status, after, _) := decodeHeaders config self headers false store in
  status = HeadersContinue
  /\ decoder_callbacks_ after = decoder_callbacks_ self.
Proof.
  unfold decodeHeaders.
  destruct (computeEffectiveConfiguration _ headers store). simpl; auto.
Qed.

Lemma decodeData_not_end_stream
  (config : HttpTimeTrackingFilterConfig) (self : HttpTimeTrackingFilter) :
  decodeData config self false = (DataContinue, self).
Proof. reflexivity. Qed.

(** Pieces of the body that do not end the stream change nothing. *)
Lemma decode_calls_data_not_end_stream
  (config : HttpTimeTrackingFilterConfig)
  (state : HttpTimeTrackingFilter * Store) (k : nat) :
  decode_calls config state (repeat (CallDecodeData false) k) = state.
Proof.
  induction k as [|k IH]; [reflexivity|].
  unfold decode_calls in *. simpl. destruct state as [self store]. exact IH.
Qed.

(** Callbacks are made one after the other. *)
Lemma decode_calls_app
  (config : HttpTimeTrackingFilterConfig)
  (state : HttpTimeTrackingFilter * Store) (calls1 calls2 : list DecodeCall) :
  decode_calls config state (calls1 ++ calls2)
  = decode_calls config (decode_calls config state calls1) calls2.
Proof. apply fold_left_app. Qed.

(** Pieces of the body that do not end the stream change nothing in the
    dynamic-delay filter either. *)
Lemma dynamic_delay_decodeData_not_end_stream
  (delay_config : HttpDynamicDelayDecoderFilterConfig)
  (delay_self : DynamicDelay.HttpDynamicDelayDecoderFilter) (k : nat) :
  DynamicDelay.decodeData_all delay_config delay_self (repeat false k)
  = delay_self.
Proof. induction k as [|k IH]; [reflexivity | exact IH]. Qed.

(** C5.  A request whose configuration resolution is an error is answered
    with one local reply of status 500 and body
    [<filter name> didn't understand the request: <message>], at the
    decoding call that carries end-of-stream: that call stops the filter
    chain iteration.  The calls of the request before it (the headers
    without end-of-stream, pieces of the body without it) send nothing and
    let the iteration continue.  The response headers of such a request are
    left alone.  A request whose resolution succeeded gets no local reply
    and the iteration continues.

    The second part is about the dynamic-delay filter: for an error
    resolution its header callback hands the request headers on as they
    were received and does not read the count of active instances,
    whatever [computeDelayMs] is, and the reply is sent as above; for a
    successful resolution no reply is sent and the request headers are
    those that [maybeRequestFaultFilterDelay] makes for the computed
    delay. *)
Theorem configuration_error_is_answered_with_500
  (config : HttpTimeTrackingFilterConfig) (self : HttpTimeTrackingFilter)
  (delay_config : HttpDynamicDelayDecoderFilterConfig)
  (delay_self : DynamicDelay.HttpDynamicDelayDecoderFilter)
  (computeDelayMs : ResponseOptions -> Z -> option Z)
  (fault_filter_delay_request : Z -> HeaderMap -> HeaderMap)
  (headers : HeaderMap) (store : Store) (process : Process) :
  let reply_of (name message : string) :=
    (500, name +:+ " didn't understand the request: " +:+ message) in
  (let base := time_tracking_base config in
   let before := local_replies (decoder_callbacks_ self) in
   let '(status, after, _) := decodeHeaders config self headers true store in
   let '(waiting_status, waiting, store') :=
     decodeHeaders config self headers false store in
   let '(data_status, after_data) := decodeData config waiting true in
   match fst (computeEffectiveConfiguration base headers store) with
   | ErrorStatus _ message =>
       let reply := reply_of (filter_name_ base) message in
       status = HeadersStopIteration
       /\ local_replies (decoder_callbacks_ after) = before ++ [reply]
       /\ waiting_status = HeadersContinue
       /\ local_replies (decoder_callbacks_ waiting) = before
       /\ decodeData config waiting false = (DataContinue, waiting)
       /\ (forall k,
             decode_calls config (waiting, store')
               (repeat (CallDecodeData false) k) = (waiting, store'))
       /\ data_status = DataStopIterationNoBuffer
       /\ local_replies (decoder_callbacks_ after_data) = before ++ [reply]
       /\ (forall response_headers store'',
              encodeHeaders after response_headers store''
              = (HeadersContinue, response_headers))
       /\ (forall response_headers store'',
              encodeHeaders after_data response_headers store''
              = (HeadersContinue, response_headers))
   | OkValue _ =>
       status = HeadersContinue
       /\ local_replies (decoder_callbacks_ after) = before
       /\ waiting_status = HeadersContinue
       /\ local_replies (decoder_callbacks_ waiting) = before
       /\ data_status = DataContinue
       /\ local_replies (decoder_callbacks_ after_data) = before
   end)
  /\ (let base := dynamic_delay_base delay_config in
      let before :=
        local_replies (DynamicDelay.decoder_callbacks_ delay_self) in
      let decoded end_stream :=
        DynamicDelay.decodeHeaders computeDelayMs fault_filter_delay_request
          delay_config delay_self headers end_stream store process in
      match computeEffectiveConfiguration base headers store with
      | (ErrorStatus code message, store') =>
          let reply := reply_of (filter_name_ base) message in
          let errored replies :=
            {| DynamicDelay.effective_config_ := ErrorStatus code message;
               DynamicDelay.decoder_callbacks_ :=
                 {| local_replies := replies |};
               DynamicDelay.destroyed_ :=
                 DynamicDelay.destroyed_ delay_self |} in
          decoded true = (errored (before ++ [reply]), headers, store', process)
          /\ decoded false = (errored before, headers, store', process)
          /\ (forall k,
                DynamicDelay.decodeData_all delay_config (errored before)
                  (repeat false k) = errored before)
          /\ DynamicDelay.decodeData delay_config (errored before) true
             = errored (before ++ [reply])
      | (OkValue value, store') =>
          forall end_stream,
            let '(after, request_headers, _, _) := decoded end_stream in
            local_replies (DynamicDelay.decoder_callbacks_ after) = before
            /\ request_headers
               = DynamicDelay.maybeRequestFaultFilterDelay
                   fault_filter_delay_request
                   (computeDelayMs
                      (deref store' value)
                      (fst (approximateFilterInstances delay_config process)))
                   headers
            /\ (forall pieces,
                  local_replies
                    (DynamicDelay.decoder_callbacks_
                       (DynamicDelay.decodeData_all delay_config after pieces))
                  = before)
      end).
Proof.
  intros reply_of. split.
  - unfold decodeHeaders, decodeData.
    destruct (computeEffectiveConfiguration _ headers store)
      as [[p|code message] store']; simpl.
    + repeat split.
    + split; [reflexivity|]. split; [reflexivity|]. split; [reflexivity|].
      split; [reflexivity|]. split; [reflexivity|].
      split; [intros k; apply decode_calls_data_not_end_stream|].
      repeat split.
  - intros base before decoded. subst decoded. unfold DynamicDelay.decodeHeaders.
    fold base.
    destruct (computeEffectiveConfiguration base headers store)
      as [[p|code message] store'].
    + intros end_stream.
      destruct (approximateFilterInstances delay_config process)
        as [concurrency process'] eqn:Hcount.
      split; [reflexivity|]. split; [reflexivity|].
      intros pieces. simpl.
      induction pieces as [|[|] pieces IH]; [reflexivity | exact IH | exact IH].
    + cbv zeta. destruct delay_self as [e [replies] d].
      split; [reflexivity|]. split; [reflexivity|].
      split; [intros k; apply dynamic_delay_decodeData_not_end_stream|].
      reflexivity.
Qed.

(** C8.  For a request whose configuration resolution is an error: when
    the headers carry end-of-stream, the error reply is sent by
    [decodeHeaders]; otherwise nothing is sent by [decodeHeaders] nor by any
    [decodeData] call that does not carry end-of-stream, and the reply is
    sent by the [decodeData] call that carries end-of-stream. *)
Theorem error_reply_waits_for_end_of_stream
  (config : HttpTimeTrackingFilterConfig) (self : HttpTimeTrackingFilter)
  (headers : HeaderMap) (store : Store) (pieces : nat)
  (code : StatusCode) (message : string) :
  let base := time_tracking_base config in
  fst (computeEffectiveConfiguration base headers store)
  = ErrorStatus code message ->
  let before := local_replies (decoder_callbacks_ self) in
  let reply :=
    (500,
     filter_name_ base +:+ " didn't understand the request: " +:+ message) in
  let sent calls :=
    local_replies
      (decoder_callbacks_ (fst (decode_calls config (self, store) calls))) in
  sent [CallDecodeHeaders headers true] = before ++ [reply]
  /\ (forall k,
        sent (CallDecodeHeaders headers false
                :: repeat (CallDecodeData false) k) = before)
  /\ sent (CallDecodeHeaders headers false
             :: repeat (CallDecodeData false) pieces
             ++ [CallDecodeData true]) = before ++ [reply].
Proof.
  intros base Hresolution before reply sent. subst sent.
  assert (Hwaiting :
    exists store',
      decode_calls config (self, store) [CallDecodeHeaders headers false]
      = ({| effective_config_ := ErrorStatus code message;
            last_request_delta_ns_ := last_request_delta_ns_ self;
            decoder_callbacks_ := decoder_callbacks_ self |}, store')).
  { unfold decode_calls, decode_call, decodeHeaders. simpl.
    fold base. destruct (computeEffectiveConfiguration base headers store)
      as [resolution store'].
    simpl in Hresolution. subst resolution. eexists. reflexivity. }
  destruct Hwaiting as [store' Hwaiting].
  split; [|split].
  - unfold decode_calls, decode_call, decodeHeaders. simpl.
    fold base. destruct (computeEffectiveConfiguration base headers store)
      as [resolution store''].
    simpl in Hresolution. subst resolution. reflexivity.
  - intros k.
    change (CallDecodeHeaders headers false :: repeat (CallDecodeData false) k)
      with ([CallDecodeHeaders headers false]
              ++ repeat (CallDecodeData false) k).
    rewrite decode_calls_app, Hwaiting, decode_calls_data_not_end_stream.
    reflexivity.
  - change (CallDecodeHeaders headers false
              :: repeat (CallDecodeData false) pieces ++ [CallDecodeData true])
      with ([CallDecodeHeaders headers false]
              ++ repeat (CallDecodeData false) pieces
              ++ [CallDecodeData true]).
    rewrite !decode_calls_app, Hwaiting, decode_calls_data_not_end_stream.
    reflexivity.
Qed.

(** C7.  [encodeHeaders] changes the response headers exactly when the
    effective configuration was resolved, its response-gap header name is
    not empty, and the gap measured for this request is above zero.  It
    then appends, under the lower-cased name, the decimal text of the gap
    in nanoseconds; in every other case the response headers stay as they
    are.  The iteration always continues. *)
Theorem encodeHeaders_emits_response_gap
  (self : HttpTimeTrackingFilter) (response_headers : HeaderMap)
  (store : Store) :
  let gap := last_request_delta_ns_ self in
  let emitted p :=
    emit_previous_request_delta_in_response_header (deref store p) <> ""
    /\ 0 < gap in
  fst (encodeHeaders self response_headers store) = HeadersContinue
  /\ (snd (encodeHeaders self response_headers store) <> response_headers
      <-> exists p, effective_config_ self = OkValue p /\ emitted p)
  /\ (forall p,
        effective_config_ self = OkValue p -> emitted p ->
        snd (encodeHeaders self response_headers store)
        = appendCopy
            (LowerCaseString
               (emit_previous_request_delta_in_response_header (deref store p)))
            (StrCat gap) response_headers
        /\ decimal_value (StrCat gap) = Some gap)
  /\ ((forall p, effective_config_ self = OkValue p -> ~ emitted p) ->
      snd (encodeHeaders self response_headers store) = response_headers).
Proof.
  intros gap emitted. subst emitted gap. unfold encodeHeaders.
  destruct (effective_config_ self) as [p|code message].
  - destruct (String.eqb_spec
                (emit_previous_request_delta_in_response_header (deref store p))
                "") as [Ename|Ename];
      destruct (Z.ltb_spec 0 (last_request_delta_ns_ self)) as [Hgap|Hgap];
      simpl.
    all: split; [reflexivity|].
    all: split; [split|].
    all: try (intros Hchanged; exfalso; apply Hchanged; reflexivity).
    all: try (intros (q & [= <-] & Hname & Hpos); first [contradiction | lia]).
    all: try (intros _; exists p; repeat split; assumption).
    all: try (intros _; apply appendCopy_changes, StrCat_not_empty; lia).
    all: split.
    all: try (intros q [= <-] [Hname Hpos]; first [contradiction | lia]).
    all: try (intros _; reflexivity).
    + intros q [= <-] _. split; [reflexivity|].
      apply decimal_value_StrCat. lia.
    + intros Hnot. exfalso. apply (Hnot p eq_refl). split; assumption.
  - simpl. split; [reflexivity|]. split; [split|split].
    + intros Hchanged. exfalso. apply Hchanged. reflexivity.
    + intros (q & E & _). discriminate.
    + intros q E. discriminate.
    + intros _. reflexivity.
Qed.

End TimeTrackingFacts.

(** ** The count of active filter instances *)

(** The count after one operation. *)
Lemma counter_step_count (process : Process)
  (op : HttpDynamicDelayDecoderFilterConfig * CounterOp) :
  fst (instances (counter_step process op))
  = (fst (instances process) + net_change [snd op]) mod UINT64_MODULUS.
Proof.
  destruct op as [config []]; unfold counter_step; simpl;
    unfold incrementFilterInstanceCount, decrementFilterInstanceCount, instances;
    destruct (instances_static process); reflexivity.
Qed.

(** The net change is additive. *)
Lemma net_change_cons (op : CounterOp) (ops : list CounterOp) :
  net_change (op :: ops) = net_change [op] + net_change ops.
Proof. destruct op; simpl; lia. Qed.

(** The count after an execution: the count before plus the net change,
    modulo 2^64. *)
Lemma counter_run_count (process : Process)
  (ops : list (HttpDynamicDelayDecoderFilterConfig * CounterOp)) :
  0 <= fst (instances process) < UINT64_MODULUS ->
  fst (instances (counter_run process ops))
  = (fst (instances process) + net_change (map snd ops)) mod UINT64_MODULUS.
Proof.
  revert process. induction ops as [|op ops IH]; intros process Hrange.
  - simpl. rewrite Z.add_0_r, Z.mod_small by exact Hrange. reflexivity.
  - change (counter_run process (op :: ops))
      with (counter_run (counter_step process op) ops).
    rewrite IH.
    + rewrite counter_step_count. simpl map.
      rewrite (net_change_cons (snd op) (map snd ops)).
      rewrite Zplus_mod_idemp_l, Z.add_assoc. reflexivity.
    + rewrite counter_step_count. apply Z.mod_pos_bound.
      unfold UINT64_MODULUS. lia.
Qed.

(** The net change does not depend on the order. *)
Lemma net_change_Permutation (ops1 ops2 : list CounterOp) :
  Permutation ops1 ops2 -> net_change ops1 = net_change ops2.
Proof.
  induction 1 as [|op l1 l2 _ IH|op1 op2 l|l1 l2 l3 _ IH1 _ IH2].
  - reflexivity.
  - rewrite (net_change_cons op l1), (net_change_cons op l2), IH. reflexivity.
  - rewrite (net_change_cons op2 (op1 :: l)), (net_change_cons op1 l),
      (net_change_cons op1 (op2 :: l)), (net_change_cons op2 l). lia.
  - rewrite IH1. exact IH2.
Qed.

(** As many increments as decrements change nothing. *)
Lemma net_change_balanced (n : nat) :
  net_change (repeat Increment n ++ repeat Decrement n) = 0.
Proof.
  assert (Hdec : forall k, net_change (repeat Decrement k) = - Z.of_nat k).
  { induction k as [|k IH]; [reflexivity|].
    simpl repeat. rewrite net_change_cons, IH. simpl. lia. }
  assert (Hinc : forall k l,
             net_change (repeat Increment k ++ l) = Z.of_nat k + net_change l).
  { induction k as [|k IH]; intros l; [reflexivity|].
    simpl repeat. rewrite <- app_comm_cons, net_change_cons, IH. simpl. lia. }
  rewrite Hinc, Hdec. lia.
Qed.

(** C9.  From a count of 0, an execution made of [n] increments and [n]
    decrements, in any order and through any configuration objects, ends
    with a count of exactly 0; and at every point of the execution the
    count that [approximateFilterInstances] returns is not negative. *)
Theorem counter_balanced_execution_returns_to_zero
  (n : nat) (ops : list (HttpDynamicDelayDecoderFilterConfig * CounterOp))
  (observer : HttpDynamicDelayDecoderFilterConfig) :
  Permutation (map snd ops) (repeat Increment n ++ repeat Decrement n) ->
  fst (approximateFilterInstances observer (counter_run process_start ops)) = 0
  /\ forall k,
       0 <= fst (approximateFilterInstances observer
                   (counter_run process_start (take k ops))).
Proof.
  intros Hperm. unfold approximateFilterInstances.
  assert (Hstart : 0 <= fst (instances process_start) < UINT64_MODULUS).
  { simpl. unfold UINT64_MODULUS. lia. }
  split.
  - rewrite counter_run_count by exact Hstart.
    rewrite (net_change_Permutation _ _ Hperm), net_change_balanced.
    reflexivity.
  - intros k. rewrite counter_run_count by exact Hstart.
    apply Z.mod_pos_bound. unfold UINT64_MODULUS. lia.
Qed.

(** C6, as amended.  There is one count for the whole process: an
    increment or a decrement made through any configuration object changes
    the count that every configuration object reads, and two configuration
    objects always read the same count. *)
Theorem counter_is_shared_by_all_instances
  (a b : HttpDynamicDelayDecoderFilterConfig) (process : Process) :
  approximateFilterInstances a process = approximateFilterInstances b process
  /\ fst (approximateFilterInstances b (incrementFilterInstanceCount a process))
     = (fst (approximateFilterInstances b process) + 1) mod UINT64_MODULUS
  /\ fst (approximateFilterInstances b (decrementFilterInstanceCount a process))
     = (fst (approximateFilterInstances b process) - 1) mod UINT64_MODULUS.
Proof.
  unfold approximateFilterInstances, incrementFilterInstanceCount,
    decrementFilterInstanceCount, instances.
  destruct (instances_static process); simpl; repeat split.
Qed.

(** C6, as stated, fails: [example_config_a] and [example_config_b] are
    distinct configuration objects, yet an increment made through the first
    is read through the second. *)
Lemma counter_not_per_instance :
  example_config_a <> example_config_b
  /\ fst (approximateFilterInstances example_config_b process_start) = 0
  /\ fst (approximateFilterInstances example_config_b
            (incrementFilterInstanceCount example_config_a process_start)) = 1.
Proof. repeat split. discriminate. Qed.

(** ** The linear delay in binary64 arithmetic *)

(** *** Digits, shifts and locations *)

(** [digits2_pos p] is the number of binary digits of [p]. *)
Lemma digits2_pos_bounds (p : positive) :
  2 ^ (Zpos (digits2_pos p) - 1) <= Zpos p < 2 ^ Zpos (digits2_pos p).
Proof.
  induction p as [p IH|p IH|]; simpl digits2_pos.
  - rewrite Pos2Z.inj_succ.
    replace (Z.succ (Zpos (digits2_pos p)) - 1) with (Z.succ (Zpos (digits2_pos p) - 1)) by lia.
    rewrite !Z.pow_succ_r by lia. lia.
  - rewrite Pos2Z.inj_succ.
    replace (Z.succ (Zpos (digits2_pos p)) - 1) with (Z.succ (Zpos (digits2_pos p) - 1)) by lia.
    rewrite !Z.pow_succ_r by lia. lia.
  - simpl. lia.
Qed.

(** A number from 2^(d-1) up to, but not including, 2^d has [d] digits. *)
Lemma Zdigits2_eq (m d : Z) :
  0 < m -> 2 ^ (d - 1) <= m < 2 ^ d -> Zdigits2 m = d.
Proof.
  intros Hm [Hlo Hhi].
  destruct m as [|p|p]; try lia. simpl.
  pose proof (digits2_pos_bounds p) as [Blo Bhi].
  assert (Hd : 0 < d).
  { destruct (Z.ltb_spec 0 d) as [|Hle]; [assumption|].
    destruct (Z.eq_dec d 0) as [->|]; [simpl in Hhi; lia|].
    rewrite Z.pow_neg_r in Hhi by lia. lia. }
  destruct (Z.lt_trichotomy (Zpos (digits2_pos p)) d) as [Hlt|[Heq|Hgt]].
  - exfalso.
    assert (2 ^ Zpos (digits2_pos p) <= 2 ^ (d - 1))
      by (apply Z.pow_le_mono_r; lia).
    lia.
  - exact Heq.
  - exfalso.
    assert (2 ^ d <= 2 ^ (Zpos (digits2_pos p) - 1))
      by (apply Z.pow_le_mono_r; lia).
    lia.
Qed.

(** A mantissa and its location survive the passage through a shift
    record. *)
Lemma shr_record_of_loc_inverse (m : Z) (l : location) :
  shr_m (shr_record_of_loc m l) = m
  /\ loc_of_shr_record (shr_record_of_loc m l) = l.
Proof. destruct l as [|[]]; split; reflexivity. Qed.

(** Away from the subnormal range, a mantissa of 53 digits is not
    shifted. *)
Lemma shr_fexp_53 (m e : Z) (l : location) :
  2 ^ 52 <= m < 2 ^ 53 -> -1074 <= e ->
  shr_fexp prec emax m e l = (shr_record_of_loc m l, e).
Proof.
  intros Hm He. unfold shr_fexp.
  rewrite (Zdigits2_eq m 53) by (simpl; lia).
  unfold fexp, emin, prec, emax.
  replace (Z.max (53 + e - 53) (3 - 1024 - 53) - e) with 0 by lia.
  reflexivity.
Qed.

(** A mantissa of 54 digits is shifted by one digit. *)
Lemma shr_fexp_54 (m e : Z) (l : location) :
  2 ^ 53 <= m < 2 ^ 54 -> -1075 <= e ->
  shr_fexp prec emax m e l = (shr_1 (shr_record_of_loc m l), e + 1).
Proof.
  intros Hm He. unfold shr_fexp.
  rewrite (Zdigits2_eq m 54) by (simpl; lia).
  unfold fexp, emin, prec, emax.
  replace (Z.max (54 + e - 53) (3 - 1024 - 53) - e) with 1 by lia.
  reflexivity.
Qed.

(** A located mantissa is the quotient, and what is left is the
    remainder. *)
Lemma located_div (num den m : Z) (l : location) :
  located num den m l -> m = num / den /\ num - m * den = num mod den.
Proof.
  intros [Hr _].
  assert (E : m = num / den).
  { apply (Z.div_unique num den m (num - m * den)); lia. }
  split; [exact E|].
  apply (Z.mod_unique num den m (num - m * den)); lia.
Qed.

(** The location that the division computes from the remainder is the
    location of the quotient, for an even denominator. *)
Lemma located_new_location (num den : Z) :
  0 < den -> Z.even den = true ->
  located num den (num / den) (new_location den (num mod den)).
Proof.
  intros Hden Heven.
  pose proof (Z.mod_pos_bound num den Hden) as Hmod.
  pose proof (Z.div_mod num den ltac:(lia)) as Hdiv.
  assert (E : num - num / den * den = num mod den) by lia.
  unfold located. rewrite E. split; [exact Hmod|].
  unfold new_location. rewrite Heven. unfold new_location_even.
  destruct (Z.eqb_spec (num mod den) 0) as [E0|N0].
  - exact E0.
  - split; [lia | reflexivity].
Qed.

(** One shift halves the mantissa; the digit dropped becomes the round
    bit and the former round bit joins the sticky bit. *)
Lemma shr_1_nonneg (m : Z) (r s : bool) :
  0 <= m ->
  shr_1 {| shr_m := m; shr_r := r; shr_s := s |}
  = {| shr_m := m / 2; shr_r := Z.odd m; shr_s := r || s |}.
Proof.
  intros Hm. destruct m as [|[p|p|]|p]; try lia; try reflexivity.
  - assert (Ediv : Zpos p~1 / 2 = Zpos p).
    { rewrite Pos2Z.inj_xI.
      symmetry. apply (Z.div_unique (2 * Zpos p + 1) 2 (Zpos p) 1); lia. }
    rewrite Ediv. reflexivity.
  - assert (Ediv : Zpos p~0 / 2 = Zpos p).
    { rewrite Pos2Z.inj_xO.
      symmetry. apply (Z.div_unique (2 * Zpos p) 2 (Zpos p) 0); lia. }
    rewrite Ediv. reflexivity.
Qed.

(** One shift keeps the mantissa located, against twice the
    denominator. *)
Lemma located_shr_1 (num den m : Z) (l : location) :
  0 < den -> 0 <= m -> located num den m l ->
  shr_m (shr_1 (shr_record_of_loc m l)) = m / 2
  /\ located num (2 * den) (m / 2)
       (loc_of_shr_record (shr_1 (shr_record_of_loc m l))).
Proof.
  intros Hden Hm [Hr Hl]. cbv zeta in Hr, Hl.
  assert (Hrecord : exists r s,
             shr_record_of_loc m l = {| shr_m := m; shr_r := r; shr_s := s |}
             /\ loc_of_shr_record {| shr_m := m; shr_r := r; shr_s := s |} = l).
  { destruct l as [|[]]; do 2 eexists; split; reflexivity. }
  destruct Hrecord as (r & s & -> & Hloc).
  rewrite shr_1_nonneg by exact Hm. simpl shr_m. split; [reflexivity|].
  pose proof (Z.div_mod m 2 ltac:(lia)) as Hhalf.
  pose proof (Z.mod_pos_bound m 2 ltac:(lia)) as Hbit.
  rewrite Zodd_mod.
  unfold located. cbv zeta.
  destruct (Z.eqb_spec (m mod 2) 1) as [Hodd|Heven].
  - (* m is odd: the remainder is at least [den] *)
    split; [lia|].
    destruct l as [|[]]; destruct r, s; try discriminate; simpl.
    + split; [lia|]. apply Z.compare_eq_iff. lia.
    + destruct Hl as [Hpos Hcmp]. apply Z.compare_eq in Hcmp.
      split; [lia|]. apply Z.compare_gt_iff. lia.
    + destruct Hl as [Hpos Hcmp]. apply Z.compare_lt_iff in Hcmp.
      split; [lia|]. apply Z.compare_gt_iff. lia.
    + destruct Hl as [Hpos Hcmp]. apply Z.compare_gt_iff in Hcmp.
      split; [lia|]. apply Z.compare_gt_iff. lia.
  - (* m is even: the remainder is below [den] *)
    split; [lia|].
    destruct l as [|[]]; destruct r, s; try discriminate; simpl.
    + lia.
    + destruct Hl as [Hpos Hcmp]. apply Z.compare_eq in Hcmp.
      split; [lia|]. apply Z.compare_lt_iff. lia.
    + destruct Hl as [Hpos Hcmp]. apply Z.compare_lt_iff in Hcmp.
      split; [lia|]. apply Z.compare_lt_iff. lia.
    + destruct Hl as [Hpos Hcmp]. apply Z.compare_gt_iff in Hcmp.
      split; [lia|]. apply Z.compare_lt_iff. lia.
Qed.

(** *** Rounding a located quotient *)

(** Rounding a located mantissa to nearest, ties to even. *)
Lemma located_round_nearest_even (num den m : Z) (l : location) :
  0 < den -> located num den m l ->
  near num den (round_nearest_even m l).
Proof.
  intros Hden Hloc.
  destruct (located_div _ _ _ _ Hloc) as [Hq Hr].
  destruct Hloc as [Hrange Hl]. cbv zeta in Hrange, Hl.
  rewrite Hr in Hl. unfold near. rewrite <- Hq.
  destruct l as [|[]]; simpl.
  - split; lia.
  - destruct Hl as [_ Hcmp]. apply Z.compare_eq in Hcmp.
    destruct (Z.even m); split; lia.
  - split; lia.
  - destruct Hl as [_ Hcmp]. apply Z.compare_gt_iff in Hcmp. split; lia.
Qed.

(** Rounding up to 2^53 is rounding up to 2^52 at the next exponent. *)
Lemma near_carry (num den : Z) :
  0 < den -> near num den (2 ^ 53) -> num / den = 2 ^ 53 - 1 ->
  near num (2 * den) (2 ^ 52).
Proof.
  intros Hden [_ Hup] Hq.
  specialize (Hup ltac:(lia)).
  pose proof (Z.div_mod num den ltac:(lia)) as Hdiv.
  pose proof (Z.mod_pos_bound num den Hden) as Hmod.
  assert (Eq : num / (2 * den) = 2 ^ 52 - 1).
  { symmetry.
    apply (Z.div_unique num (2 * den) (2 ^ 52 - 1) (den + num mod den)); lia. }
  assert (Er : num mod (2 * den) = den + num mod den).
  { symmetry.
    apply (Z.mod_unique num (2 * den) (2 ^ 52 - 1) (den + num mod den)); lia. }
  unfold near. rewrite Eq, Er. split; lia.
Qed.

(** The second normalisation of [binary_round_aux], once the mantissa has
    been rounded. *)
Lemma binary_round_aux_finish (s : bool) (m e : Z) :
  2 ^ 52 <= m <= 2 ^ 53 -> -1074 <= e <= 900 ->
  let '(mrs, e') := shr_fexp prec emax m e loc_Exact in
  match shr_m mrs with
  | Z0 => S754_zero s
  | Zpos p =>
      if e' <=? emax - prec then S754_finite s p e' else S754_infinity s
  | Zneg _ => S754_nan
  end
  = if m <? 2 ^ 53 then S754_finite s (Z.to_pos m) e
    else S754_finite s (Z.to_pos (2 ^ 52)) (e + 1).
Proof.
  intros Hm He.
  destruct (Z.ltb_spec m (2 ^ 53)) as [Hlt|Hge].
  - rewrite shr_fexp_53 by lia. simpl shr_m.
    destruct m as [|p|p]; try lia.
    destruct (Z.leb_spec e (emax - prec)) as [_|Hbad];
      [reflexivity | unfold emax, prec in Hbad; lia].
  - assert (m = 2 ^ 53) as -> by lia.
    rewrite shr_fexp_54 by lia.
    destruct (Z.leb_spec (e + 1) (emax - prec)) as [_|Hbad];
      [reflexivity | unfold emax, prec in Hbad; lia].
Qed.

(** [binary_round_aux] on a located quotient of 53 or 54 digits: the result
    is finite, normalised, and near the exact quotient at its exponent. *)
Lemma binary_round_aux_near (s : bool) (num den q e0 : Z) (l : location) :
  0 < den -> located num den q l ->
  2 ^ 52 <= q < 2 ^ 54 - 2 -> -1074 <= e0 <= 800 ->
  exists m e,
    binary_round_aux prec emax s q e0 l = S754_finite s m e
    /\ 2 ^ 52 <= Zpos m < 2 ^ 53
    /\ ((e = e0 /\ near num den (Zpos m))
        \/ (e = e0 + 1 /\ near num (2 * den) (Zpos m))).
Proof.
  intros Hden Hloc Hq He.
  unfold binary_round_aux.
  destruct (Z.ltb_spec q (2 ^ 53)) as [Hlt|Hge].
  - (* 53 digits: no shift before rounding *)
    rewrite shr_fexp_53 by lia.
    destruct (shr_record_of_loc_inverse q l) as [-> ->].
    pose proof (located_round_nearest_even num den q l Hden Hloc) as Hnear.
    destruct (located_div _ _ _ _ Hloc) as [Eq _].
    set (m1 := round_nearest_even q l) in *.
    assert (Hm1 : 2 ^ 52 <= m1 <= 2 ^ 53) by (destruct Hnear; lia).
    pose proof (binary_round_aux_finish s m1 e0 Hm1 ltac:(lia)) as Hfinish.
    destruct (shr_fexp prec emax m1 e0 loc_Exact) as [mrs e'].
    rewrite Hfinish.
    destruct (Z.ltb_spec m1 (2 ^ 53)) as [Hlt1|Hge1].
    + exists (Z.to_pos m1), e0. rewrite Z2Pos.id by lia.
      split; [reflexivity|]. split; [lia|]. left. split; [reflexivity|assumption].
    + exists (Z.to_pos (2 ^ 52)), (e0 + 1). rewrite Z2Pos.id by lia.
      split; [reflexivity|]. split; [lia|]. right. split; [reflexivity|].
      assert (m1 = 2 ^ 53) as E by lia. rewrite E in Hnear.
      apply near_carry; [assumption|assumption|destruct Hnear; lia].
  - (* 54 digits: one shift before rounding *)
    rewrite shr_fexp_54 by lia.
    destruct (located_shr_1 num den q l Hden ltac:(lia) Hloc) as [-> Hloc2].
    pose proof (located_round_nearest_even num (2 * den) (q / 2) _
                  ltac:(lia) Hloc2) as Hnear.
    destruct (located_div _ _ _ _ Hloc2) as [Eq _].
    set (m1 := round_nearest_even (q / 2) _) in *.
    assert (Hhalf : 2 ^ 52 <= q / 2 < 2 ^ 53 - 1).
    { pose proof (Z.div_mod q 2 ltac:(lia)).
      pose proof (Z.mod_pos_bound q 2 ltac:(lia)). lia. }
    assert (Hm1 : 2 ^ 52 <= m1 < 2 ^ 53) by (destruct Hnear; lia).
    pose proof (binary_round_aux_finish s m1 (e0 + 1) ltac:(lia) ltac:(lia))
      as Hfinish.
    destruct (shr_fexp prec emax m1 (e0 + 1) loc_Exact) as [mrs e'].
    rewrite Hfinish.
    destruct (Z.ltb_spec m1 (2 ^ 53)) as [_|Hbad]; [|lia].
    exists (Z.to_pos m1), (e0 + 1). rewrite Z2Pos.id by lia.
    split; [reflexivity|]. split; [lia|]. right. split; [reflexivity|assumption].
Qed.

(** *** Conversions and the division by [1e6] *)

(** [Pos.iter xO p k] is [p] shifted left by [k] digits. *)
Lemma Pos_iter_xO (p k : positive) :
  Zpos (Pos.iter xO p k) = Zpos p * 2 ^ Zpos k.
Proof.
  induction k as [|k IH] using Pos.peano_ind.
  - simpl. lia.
  - rewrite Pos.iter_succ, Pos2Z.inj_xO, IH, Pos2Z.inj_succ, Z.pow_succ_r by lia.
    lia.
Qed.

(** Aligning an integer below 2^53 to 53 digits. *)
Lemma shl_align_53 (p : positive) :
  Zpos p < 2 ^ 53 ->
  exists m e,
    shl_align p 0 (fexp prec emax (Zpos (digits2_pos p) + 0)) = (m, e)
    /\ Zpos m = Zpos p * 2 ^ (- e)
    /\ -52 <= e <= 0
    /\ 2 ^ 52 <= Zpos m < 2 ^ 53.
Proof.
  intros Hp.
  pose proof (digits2_pos_bounds p) as [Hlo Hhi].
  set (d := Zpos (digits2_pos p)) in *.
  assert (Hd : 1 <= d <= 53).
  { split; [subst d; lia|].
    destruct (Z.leb_spec d 53) as [|Hgt]; [assumption|].
    assert (2 ^ 53 <= 2 ^ (d - 1)) by (apply Z.pow_le_mono_r; lia). lia. }
  unfold shl_align, fexp, emin, prec, emax.
  replace (Z.max (d + 0 - 53) (3 - 1024 - 53) - 0) with (d - 53) by lia.
  replace (Z.max (d + 0 - 53) (3 - 1024 - 53)) with (d - 53) by lia.
  destruct (d - 53) as [|k|k] eqn:Ek; try lia.
  - exists p, 0. assert (d = 53) as Ed by lia. rewrite Ed in Hlo, Hhi.
    split; [reflexivity|]. simpl Z.opp. rewrite Z.pow_0_r. lia.
  - exists (Pos.iter xO p k), (Zneg k).
    split; [reflexivity|].
    rewrite Pos_iter_xO. simpl Z.opp.
    split; [reflexivity|]. split; [lia|].
    assert (Ek' : Zpos k = 53 - d) by lia.
    assert (E52 : 2 ^ 52 = 2 ^ (d - 1) * 2 ^ Zpos k).
    { rewrite <- Z.pow_add_r by lia. f_equal. lia. }
    assert (E53 : 2 ^ 53 = 2 ^ d * 2 ^ Zpos k).
    { rewrite <- Z.pow_add_r by lia. f_equal. lia. }
    assert (Hk : 0 < 2 ^ Zpos k) by (apply Z.pow_pos_nonneg; lia).
    rewrite E52, E53. split.
    + apply Z.mul_le_mono_nonneg_r; lia.
    + apply Z.mul_lt_mono_pos_r; lia.
Qed.

(** A mantissa of 53 digits with an exact location is kept as it is. *)
Lemma binary_round_aux_exact (s : bool) (m : positive) (e : Z) :
  2 ^ 52 <= Zpos m < 2 ^ 53 -> -1074 <= e <= 900 ->
  binary_round_aux prec emax s (Zpos m) e loc_Exact = S754_finite s m e.
Proof.
  intros Hm He. unfold binary_round_aux.
  rewrite shr_fexp_53 by lia. simpl shr_m. simpl loc_of_shr_record.
  simpl round_nearest_even.
  pose proof (binary_round_aux_finish s (Zpos m) e ltac:(lia) He) as Hfinish.
  destruct (shr_fexp prec emax (Zpos m) e loc_Exact) as [mrs e'].
  rewrite Hfinish.
  destruct (Z.ltb_spec (Zpos m) (2 ^ 53)); [reflexivity | lia].
Qed.

(** The conversion of an integer of magnitude below 2^53 is exact. *)
Lemma binary_normalize_exact (s szero : bool) (p : positive) :
  Zpos p < 2 ^ 53 ->
  exists m e,
    binary_normalize prec emax (cond_Zopp s (Zpos p)) 0 szero
    = S754_finite s m e
    /\ Zpos m = Zpos p * 2 ^ (- e)
    /\ -52 <= e <= 0
    /\ 2 ^ 52 <= Zpos m < 2 ^ 53.
Proof.
  intros Hp.
  destruct (shl_align_53 p Hp) as (m & e & Halign & Hvalue & He & Hm).
  exists m, e.
  split; [|auto].
  assert (Hround : binary_round prec emax s p 0 = S754_finite s m e).
  { unfold binary_round. rewrite Halign.
    apply binary_round_aux_exact; lia. }
  destruct s; simpl; exact Hround.
Qed.

(** The literal [1e6]: mantissa [D1e6], exponent -33. *)
Lemma double_1e6_eq : double_1e6 = S754_finite false (Z.to_pos D1e6) (-33).
Proof. reflexivity. Qed.

(** The integer division behind the floating-point division by [1e6]. *)
Lemma SFdiv_core_binary_1e6 (m1 : positive) (e1 : Z) :
  2 ^ 52 <= Zpos m1 < 2 ^ 53 -> -52 <= e1 <= 0 ->
  SFdiv_core_binary prec emax (Zpos m1) e1 D1e6 (-33)
  = (Zpos m1 * 2 ^ 53 / D1e6, e1 - 20,
     new_location D1e6 ((Zpos m1 * 2 ^ 53) mod D1e6)).
Proof.
  intros Hm He. unfold SFdiv_core_binary.
  rewrite (Zdigits2_eq (Zpos m1) 53) by (simpl; lia).
  rewrite (Zdigits2_eq D1e6 53) by (unfold D1e6; simpl; lia).
  cbv zeta.
  replace (Z.min (fexp prec emax (53 + e1 - (53 + -33))) (e1 - -33))
    with (e1 - 20) by (unfold fexp, emin, prec, emax; lia).
  replace (e1 - -33 - (e1 - 20)) with 53 by lia.
  cbv iota beta.
  rewrite Z.shiftl_mul_pow2 by lia.
  unfold Z.div, Z.modulo.
  destruct (Z.div_eucl (Zpos m1 * 2 ^ 53) D1e6) as [q r]. reflexivity.
Qed.

(** The quotient of a normalised number by [1e6]. *)
Lemma double_div_1e6 (s : bool) (m1 : positive) (e1 : Z) :
  2 ^ 52 <= Zpos m1 < 2 ^ 53 -> -52 <= e1 <= 0 ->
  exists m e,
    double_div (S754_finite s m1 e1) double_1e6 = S754_finite s m e
    /\ ((e = e1 - 20 /\ near (Zpos m1 * 2 ^ 53) D1e6 (Zpos m))
        \/ (e = e1 - 19 /\ near (Zpos m1 * 2 ^ 53) (2 * D1e6) (Zpos m))).
Proof.
  intros Hm He.
  rewrite double_1e6_eq. unfold double_div, SFdiv.
  change (Zpos (Z.to_pos D1e6)) with D1e6.
  rewrite SFdiv_core_binary_1e6 by assumption.
  rewrite xorb_false_r.
  set (num := Zpos m1 * 2 ^ 53).
  assert (Hden : 0 < D1e6) by (unfold D1e6; lia).
  assert (Hq : 2 ^ 52 <= num / D1e6 < 2 ^ 54 - 2).
  { split.
    - apply Z.div_le_lower_bound; [exact Hden|]. subst num. unfold D1e6. lia.
    - apply Z.div_lt_upper_bound; [exact Hden|]. subst num. unfold D1e6. lia. }
  destruct (binary_round_aux_near s num D1e6 (num / D1e6) (e1 - 20)
              (new_location D1e6 (num mod D1e6)) Hden
              (located_new_location num D1e6 Hden eq_refl) Hq ltac:(lia))
    as (m & e & Hresult & _ & Hnear).
  exists m, e. split; [exact Hresult|].
  destruct Hnear as [[-> Hnear]|[-> Hnear]]; [left|right]; split;
    first [reflexivity | lia | assumption].
Qed.

(** *** From the rounded quotient to the millisecond *)

(** [near] does not depend on a common factor. *)
Lemma near_scale (c a b m : Z) :
  0 < c -> 0 < b -> near (c * a) (c * b) m -> near a b m.
Proof.
  intros Hc Hb. unfold near.
  rewrite Z.div_mul_cancel_l, Z.mul_mod_distr_l by lia.
  intros [Hrange Hup]. split; [exact Hrange|].
  intros E. specialize (Hup E).
  apply (Z.mul_le_mono_pos_l _ _ c Hc). lia.
Qed.

(** Rounding the rounded quotient to an integer gives the integer nearest
    to the exact quotient, as long as the quotient is known to more than
    one part in a million. *)
Lemma near_round (n P2 m : Z) :
  0 < n -> 250000 < P2 -> near (n * (2 * P2)) 1000000 m ->
  (m + P2) / (2 * P2) = (2 * n + 1000000) / 2000000.
Proof.
  intros Hn HP2 [Hrange Hup].
  pose proof (Z.div_mod (n * (2 * P2)) 1000000 ltac:(lia)) as Hq.
  pose proof (Z.mod_pos_bound (n * (2 * P2)) 1000000 ltac:(lia)) as Hr.
  set (q := n * (2 * P2) / 1000000) in *.
  set (r := (n * (2 * P2)) mod 1000000) in *.
  pose proof (Z.div_mod (2 * n + 1000000) 2000000 ltac:(lia)) as HK.
  pose proof (Z.mod_pos_bound (2 * n + 1000000) 2000000 ltac:(lia)) as HKr.
  set (K := (2 * n + 1000000) / 2000000) in *.
  set (t := (2 * n + 1000000) mod 2000000) in *.
  assert (HnP : n * (2 * P2) = 2 * (n * P2)) by ring.
  assert (Hlow : 2000000 * (K * P2) <= 2 * (n * P2) + 1000000 * P2) by nia.
  assert (Hhigh : 2 * (n * P2) <= 2000000 * (K * P2) + 999998 * P2) by nia.
  set (nP := n * P2) in *. set (KP := K * P2) in *.
  symmetry.
  apply (Z.div_unique (m + P2) (2 * P2) K (m + P2 - 2 * KP)).
  - left. split.
    + lia.
    + destruct (Z.eq_dec m (q + 1)) as [E|N].
      * specialize (Hup E). lia.
      * lia.
  - subst KP. ring.
Qed.

(** The conversion back of an integer that was converted exactly. *)
Lemma int64_of_double_integer (s : bool) (m : positive) (e k : Z) :
  Zpos m = k * 2 ^ (- e) -> -52 <= e <= 0 -> 0 <= k < 2 ^ 53 ->
  int64_of_double (S754_finite s m e) = Some (cond_Zopp s k).
Proof.
  intros Hvalue He Hk. unfold int64_of_double.
  assert (Htrunc :
    (if 0 <=? e then Zpos m * 2 ^ e else Zpos m / 2 ^ (- e)) = k).
  { destruct (Z.leb_spec 0 e) as [H0|Hneg].
    - assert (e = 0) as -> by lia. simpl in Hvalue. lia.
    - rewrite Hvalue. apply Z.div_mul.
      assert (0 < 2 ^ (- e)) by (apply Z.pow_pos_nonneg; lia). lia. }
  rewrite Htrunc. cbv zeta.
  assert (Hfits : (INT64_MIN <=? cond_Zopp s k) && (cond_Zopp s k <=? INT64_MAX)
                  = true).
  { unfold INT64_MIN, INT64_MAX. apply andb_true_iff.
    split; apply Z.leb_le; destruct s; simpl; lia. }
  rewrite Hfits. reflexivity.
Qed.

(** The computation of the source on a non-zero count of nanoseconds of
    magnitude below 2^53. *)
Lemma delay_of_nanoseconds (s : bool) (p : positive) :
  Zpos p < 2 ^ 53 ->
  int64_of_double
    (std_round (double_div (double_of_int64 (cond_Zopp s (Zpos p))) double_1e6))
  = Some (cond_Zopp s ((2 * Zpos p + 1000000) / 2000000)).
Proof.
  intros Hp. unfold double_of_int64.
  destruct (binary_normalize_exact s false p Hp)
    as (m1 & e1 & -> & Hvalue1 & He1 & Hm1).
  destruct (double_div_1e6 s m1 e1 Hm1 He1) as (m & e & -> & Hnear).
  assert (Hpow1 : 0 < 2 ^ (- e1)) by (apply Z.pow_pos_nonneg; lia).
  (* the rounded quotient is near [p / 10^6] at the scale 2^e *)
  assert (Hscaled : e <= -19 /\ near (Zpos p * (2 * 2 ^ (- e - 1))) 1000000 (Zpos m)).
  { destruct Hnear as [[-> Hnear]|[-> Hnear]]; (split; [lia|]).
    - apply (near_scale (2 ^ 33)); [lia|lia|].
      replace (2 ^ 33 * (Zpos p * (2 * 2 ^ (- (e1 - 20) - 1))))
        with (Zpos m1 * 2 ^ 53).
      + exact Hnear.
      + rewrite Hvalue1.
        replace (- (e1 - 20) - 1) with (19 + - e1) by lia.
        rewrite Z.pow_add_r by lia. lia.
    - apply (near_scale (2 ^ 34)); [lia|lia|].
      replace (2 ^ 34 * (Zpos p * (2 * 2 ^ (- (e1 - 19) - 1))))
        with (Zpos m1 * 2 ^ 53).
      + exact Hnear.
      + rewrite Hvalue1.
        replace (- (e1 - 19) - 1) with (18 + - e1) by lia.
        rewrite Z.pow_add_r by lia. lia. }
  destruct Hscaled as [He Hscaled].
  assert (HP2 : 250000 < 2 ^ (- e - 1)).
  { assert (2 ^ 18 <= 2 ^ (- e - 1)) by (apply Z.pow_le_mono_r; lia). lia. }
  pose proof (near_round (Zpos p) (2 ^ (- e - 1)) (Zpos m) ltac:(lia) HP2
                Hscaled) as Hround.
  unfold std_round.
  destruct (Z.leb_spec 0 e) as [Hbad|_]; [lia|].
  replace (2 ^ (- e)) with (2 * 2 ^ (- e - 1)).
  2:{ rewrite <- Z.pow_succ_r by lia. f_equal. lia. }
  rewrite Hround.
  set (K := (2 * Zpos p + 1000000) / 2000000).
  assert (HK : 0 <= K < 2 ^ 53).
  { subst K. split.
    - apply Z.div_pos; lia.
    - apply Z.div_lt_upper_bound; lia. }
  destruct K as [|k|k] eqn:EK; try lia.
  - destruct s; reflexivity.
  - destruct (binary_normalize_exact s s k ltac:(lia))
      as (mK & eK & -> & HvalueK & HeK & _).
    apply int64_of_double_integer; [exact HvalueK | exact HeK | lia].
Qed.

(** *** The delay *)

(** Splitting a count of nanoseconds loses nothing. *)
Lemma DurationToNanoseconds_NanosecondsToDuration (n : Z) :
  DurationToNanoseconds (NanosecondsToDuration n) = n.
Proof.
  unfold DurationToNanoseconds, NanosecondsToDuration. simpl.
  pose proof (Z.quot_rem' n kNanosPerSecond). lia.
Qed.

(** The count of nanoseconds handed to the division. *)
Lemma linear_delay_nanoseconds
  (concurrency : Z) (minimal_delay delay_factor : Duration) :
  DurationToNanoseconds
    (Duration_add minimal_delay (Duration_mul concurrency delay_factor))
  = DurationToNanoseconds minimal_delay
    + concurrency * DurationToNanoseconds delay_factor.
Proof.
  unfold Duration_add, Duration_mul.
  rewrite !DurationToNanoseconds_NanosecondsToDuration. reflexivity.
Qed.

(** [round_half_away num den] is an integer nearest to [num / den], and in
    a halfway case it is the one away from zero. *)
Lemma round_half_away_nearest (num den : Z) :
  0 < den ->
  let r := round_half_away num den in
  2 * Z.abs (num - r * den) <= den
  /\ (2 * Z.abs (num - r * den) = den -> Z.abs num < Z.abs (r * den)).
Proof.
  intros Hden. unfold round_half_away.
  pose proof (Z.div_mod (2 * Z.abs num + den) (2 * den) ltac:(lia)) as Hdiv.
  pose proof (Z.mod_pos_bound (2 * Z.abs num + den) (2 * den) ltac:(lia))
    as Hmod.
  set (K := (2 * Z.abs num + den) / (2 * den)) in *.
  assert (HK : 2 * den * K = 2 * (K * den)) by ring.
  set (Kden := K * den) in *.
  destruct (Z.lt_trichotomy num 0) as [Hneg|[Hzero|Hpos]].
  - rewrite Z.sgn_neg by exact Hneg.
    replace (-1 * K * den) with (- Kden) by (subst Kden; ring). cbv zeta. lia.
  - subst num. rewrite Z.sgn_0. simpl. cbv zeta. lia.
  - rewrite Z.sgn_pos by exact Hpos.
    replace (1 * K * den) with Kden by (subst Kden; ring). cbv zeta. lia.
Qed.

(** C1, as amended.  When the sum [minimal_delay + concurrency *
    delay_factor], counted in nanoseconds, has a magnitude below 2^53, the
    computation returns that sum rounded to the nearest millisecond,
    halfway cases away from zero. *)
Theorem linear_delay_rounds_to_nearest_millisecond
  (concurrency : Z) (minimal_delay delay_factor : Duration) :
  let total :=
    DurationToNanoseconds minimal_delay
    + concurrency * DurationToNanoseconds delay_factor in
  - 2 ^ 53 < total < 2 ^ 53 ->
  computeConcurrencyBasedLinearDelayMs concurrency minimal_delay delay_factor
  = Some (round_half_away total 1000000).
Proof.
  intros total Htotal. unfold computeConcurrencyBasedLinearDelayMs.
  rewrite linear_delay_nanoseconds. fold total.
  unfold round_half_away.
  destruct total as [|p|p].
  - reflexivity.
  - pose proof (delay_of_nanoseconds false p ltac:(lia)) as Hdelay.
    unfold cond_Zopp in Hdelay. rewrite Hdelay.
    change (Z.sgn (Zpos p)) with 1. change (Z.abs (Zpos p)) with (Zpos p).
    change (2 * 1000000) with 2000000.
    rewrite Z.mul_1_l. reflexivity.
  - pose proof (delay_of_nanoseconds true p ltac:(lia)) as Hdelay.
    unfold cond_Zopp in Hdelay. change (- Zpos p) with (Zneg p) in Hdelay.
    rewrite Hdelay.
    change (Z.sgn (Zneg p)) with (-1). change (Z.abs (Zneg p)) with (Zpos p).
    change (2 * 1000000) with 2000000.
    reflexivity.
Qed.

(** ** The properties at concrete requests *)

Lemma computeEffectiveConfiguration_without_override_witness :
  let self := time_tracking_base (fst example_time_tracking) in
  let store := snd example_time_tracking in
  store !! server_config_ self = Some example_base
  /\ get (@TestServerConfig ExampleApi) example_headers_plain = []
  /\ exists p,
       @computeEffectiveConfiguration ExampleApi self example_headers_plain store
       = (OkValue p, store)
       /\ p = server_config_ self
       /\ store !! p = Some example_base.
Proof.
  split; [reflexivity|]. split; [reflexivity|].
  apply (@computeEffectiveConfiguration_without_override ExampleApi);
    reflexivity.
Defined.

Lemma computeEffectiveConfiguration_duplicate_override_witness :
  let self := time_tracking_base (fst example_time_tracking) in
  let store := snd example_time_tracking in
  (2 <= length (get (@TestServerConfig ExampleApi) example_headers_duplicate))%nat
  /\ @computeEffectiveConfiguration ExampleApi self example_headers_duplicate
       store
     = (InvalidArgumentError
          "Received multiple configuration headers in the request, expected only one.",
        store).
Proof.
  split; [simpl; lia|].
  apply (@computeEffectiveConfiguration_duplicate_override ExampleApi).
  simpl; lia.
Defined.

Lemma computeEffectiveConfiguration_merges_single_override_witness :
  let self := time_tracking_base (fst example_time_tracking) in
  let store := snd example_time_tracking in
  store !! server_config_ self = Some example_base
  /\ get "x-nighthawk-test-server-config" example_headers_override
     = ["{response_code: 429}"]
  /\ exists p store' merged,
       @computeEffectiveConfiguration ExampleApi self example_headers_override
         store = (OkValue p, store')
       /\ store' !! p = Some merged
       /\ lookup_path ["response_code"] merged = Some (JNumber 429)
       /\ lookup_path ["emit_previous_request_delta_in_response_header"] merged
          = Some (JString "x-gap-ns").
Proof.
  split; [reflexivity|]. split; [reflexivity|].
  destruct (computeEffectiveConfiguration_merges_single_override
              example_parse_json (fun _ => None)
              "x-nighthawk-test-server-config"
              (time_tracking_base (fst example_time_tracking))
              example_headers_override (snd example_time_tracking)
              "{response_code: 429}" example_base eq_refl eq_refl)
    as (p & store' & merged & Hresult & _ & _ & Hmerged & _
        & Hreplaced & Hretained).
  exists p, store', merged. split; [exact Hresult|]. split; [exact Hmerged|].
  split.
  - apply Hreplaced; reflexivity.
  - rewrite Hretained; reflexivity.
Defined.

Lemma error_reply_waits_for_end_of_stream_witness :
  let config := fst example_time_tracking in
  let store := snd example_time_tracking in
  let message :=
    "Received multiple configuration headers in the request, expected only one." in
  let reply :=
    (500, "time-tracking didn't understand the request: " +:+ message) in
  let sent calls :=
    local_replies
      (decoder_callbacks_
         (fst (@decode_calls ExampleApi config
                 (HttpTimeTrackingFilter_new, store) calls))) in
  fst (@computeEffectiveConfiguration ExampleApi (time_tracking_base config)
         example_headers_duplicate store)
  = ErrorStatus kInvalidArgument message
  /\ (sent [CallDecodeHeaders example_headers_duplicate true] = [reply]
      /\ (forall k,
            sent (CallDecodeHeaders example_headers_duplicate false
                    :: repeat (CallDecodeData false) k) = [])
      /\ sent (CallDecodeHeaders example_headers_duplicate false
                 :: repeat (CallDecodeData false) 2 ++ [CallDecodeData true])
         = [reply]).
Proof.
  split; [reflexivity|].
  apply (@error_reply_waits_for_end_of_stream ExampleApi
           (fst example_time_tracking) HttpTimeTrackingFilter_new
           example_headers_duplicate (snd example_time_tracking) 2
           kInvalidArgument).
  reflexivity.
Defined.

(** C5, as stated, fails for a request with a body.  The resolution of
    these request headers is an error; yet the header callback without
    end-of-stream and a piece of the body without it send no reply and
    return [Continue]: the request is handed on to the filters after this
    one, and is answered only when its stream ends. *)
Lemma errored_request_continues_before_end_of_stream :
  let config := fst example_time_tracking in
  let store := snd example_time_tracking in
  let error :=
    InvalidArgumentError
      "Received multiple configuration headers in the request, expected only one." in
  let waiting :=
    {| effective_config_ := error;
       last_request_delta_ns_ := 0;
       decoder_callbacks_ := {| local_replies := [] |} |} in
  fst (@computeEffectiveConfiguration ExampleApi (time_tracking_base config)
         example_headers_duplicate store) = error
  /\ @decodeHeaders ExampleApi config HttpTimeTrackingFilter_new
       example_headers_duplicate false store
     = (HeadersContinue, waiting, store)
  /\ decodeData config waiting false = (DataContinue, waiting)
  /\ local_replies (decoder_callbacks_ waiting) = [].
Proof. repeat split. Qed.

(** A dynamic-delay filter whose delay is linear in the count of active
    instances, with five of them active: a request without override gets
    the request for 150 ms written into its headers, a request with two
    override values gets its headers back unchanged and the reply. *)
Example scenario_errored_request_gets_no_delay :
  let computeDelayMs (_ : Json) (concurrency : Z) :=
    computeConcurrencyBasedLinearDelayMs concurrency (milliseconds 100)
                                         (milliseconds 10) in
  let fault_filter_delay_request (delay : Z) (headers : HeaderMap) :=
    headers ++ [("delay-request-ms", StrCat delay)] in
  let process :=
    counter_run process_start (repeat (example_config_a, Increment) 5) in
  let filter :=
    {| DynamicDelay.effective_config_ := StatusOr_default;
       DynamicDelay.decoder_callbacks_ := {| local_replies := [] |};
       DynamicDelay.destroyed_ := false |} in
  let decoded headers :=
    @DynamicDelay.decodeHeaders ExampleApi computeDelayMs
      fault_filter_delay_request example_config_a filter headers true
      (snd example_time_tracking) process in
  snd (fst (fst (decoded example_headers_plain)))
  = example_headers_plain ++ [("delay-request-ms", "150")]
  /\ local_replies
       (DynamicDelay.decoder_callbacks_
          (fst (fst (fst (decoded example_headers_plain))))) = []
  /\ snd (fst (fst (decoded example_headers_duplicate)))
     = example_headers_duplicate
  /\ local_replies
       (DynamicDelay.decoder_callbacks_
          (fst (fst (fst (decoded example_headers_duplicate)))))
     = [(500,
         "dynamic-delay didn't understand the request: Received multiple configuration headers in the request, expected only one.")].
Proof. repeat split. Qed.

Lemma counter_balanced_execution_returns_to_zero_witness :
  let ops := [(example_config_a, Decrement); (example_config_b, Increment)] in
  Permutation (map snd ops) (repeat Increment 1 ++ repeat Decrement 1)
  /\ (fst (approximateFilterInstances example_config_a
             (counter_run process_start ops)) = 0
      /\ forall k,
           0 <= fst (approximateFilterInstances example_config_a
                       (counter_run process_start (take k ops)))).
Proof.
  split; [apply perm_swap|].
  apply (counter_balanced_execution_returns_to_zero 1).
  apply perm_swap.
Defined.

(** The scenarios of the specification, section 8. *)

Example scenario_duplicate_override_mentions_expected_only_one :
  local_replies
    (decoder_callbacks_
       (fst (@decode_calls ExampleApi (fst example_time_tracking)
               (HttpTimeTrackingFilter_new, snd example_time_tracking)
               [CallDecodeHeaders example_headers_duplicate true])))
  = [(500,
      "time-tracking didn't understand the request: Received multiple configuration headers in the request, expected only one.")].
Proof. reflexivity. Qed.

Example scenario_counter_wraps_below_zero :
  fst (approximateFilterInstances example_config_a
         (decrementFilterInstanceCount example_config_b process_start))
  = 18446744073709551615.
Proof. reflexivity. Qed.

Example scenario_response_gap :
  let config := fst example_time_tracking in
  let store := snd example_time_tracking in
  let '(first, config) :=
    setDecoderFilterCallbacks config HttpTimeTrackingFilter_new
      {| local_replies := [] |} 1000 in
  let '(_, first, store) :=
    @decodeHeaders ExampleApi config first example_headers_plain true store in
  let '(second, config) :=
    setDecoderFilterCallbacks config HttpTimeTrackingFilter_new
      {| local_replies := [] |} 5001000 in
  let '(_, second, store) :=
    @decodeHeaders ExampleApi config second example_headers_plain true store in
  snd (@encodeHeaders ExampleApi first [(":status", "200")] store)
  = [(":status", "200")]
  /\ snd (@encodeHeaders ExampleApi second [(":status", "200")] store)
     = [(":status", "200"); ("x-gap-ns", "5000000")].
Proof. split; reflexivity. Qed.

Lemma linear_delay_rounds_to_nearest_millisecond_witness :
  - 2 ^ 53
    < DurationToNanoseconds (milliseconds 100)
      + 5 * DurationToNanoseconds (milliseconds 10)
    < 2 ^ 53
  /\ computeConcurrencyBasedLinearDelayMs 5 (milliseconds 100)
                                          (milliseconds 10)
     = Some 150.
Proof.
  split; [vm_compute; split; reflexivity|].
  apply (linear_delay_rounds_to_nearest_millisecond
           5 (milliseconds 100) (milliseconds 10)).
  vm_compute; split; reflexivity.
Defined.

(** C1, as stated, fails above 2^53 nanoseconds (about 104 days): the sum
    9007199.255 s + 1 * 499999 ns is 9007199255499999 ns, whose nearest
    millisecond is 9007199255; the conversion to [double] rounds the sum to
    9007199255500000, the quotient by [1e6] is 9007199255.5 and
    [std::round] returns 9007199256. *)
Lemma linear_delay_off_by_one_above_2_53 :
  let minimal_delay := {| seconds := 9007199; nanos := 255000000 |} in
  let delay_factor := {| seconds := 0; nanos := 499999 |} in
  DurationToNanoseconds minimal_delay + 1 * DurationToNanoseconds delay_factor
  = 9007199255499999
  /\ round_half_away 9007199255499999 1000000 = 9007199255
  /\ double_of_int64 9007199255499999
     = double_of_int64 9007199255500000
  /\ computeConcurrencyBasedLinearDelayMs 1 minimal_delay delay_factor
     = Some 9007199256.
Proof. repeat split. Qed.

Example scenario_response_gap_name_is_lowered :
  let headers :=
    [("x-nighthawk-test-server-config",
      "{emit_previous_request_delta_in_response_header: X-Gap-Ns}")] in
  let '(filter, config) :=
    setDecoderFilterCallbacks (fst example_time_tracking)
      HttpTimeTrackingFilter_new {| local_replies := [] |} 7 in
  let '(filter, config) :=
    setDecoderFilterCallbacks config filter {| local_replies := [] |} 49 in
  let '(_, filter, store) :=
    @decodeHeaders ExampleApi config filter headers true
      (snd example_time_tracking) in
  snd (@encodeHeaders ExampleApi filter [("x-gap-ns", "1")] store)
  = [("x-gap-ns", "1,42")].
Proof. reflexivity. Qed.

Example scenario_linear_delay_three_in_flight :
  computeConcurrencyBasedLinearDelayMs 3 (milliseconds 0) (milliseconds 1)
  = Some 3.
Proof. reflexivity. Qed.

Example scenario_linear_delay_half_millisecond_rounds_up :
  computeConcurrencyBasedLinearDelayMs 1 (milliseconds 2)
    {| seconds := 0; nanos := 500000 |} = Some 3
  /\ computeConcurrencyBasedLinearDelayMs 1 (milliseconds 2)
       {| seconds := 0; nanos := 499999 |} = Some 2
  /\ computeConcurrencyBasedLinearDelayMs 1 (milliseconds (-2))
       {| seconds := 0; nanos := -500000 |} = Some (-3).
Proof. repeat split. Qed.

(** * Further properties *)

(** ** Resolutions and the store *)

Section ResolutionFurther.
Context `{ServerApi}.

Lemma computeEffectiveConfiguration_each_extends
  (requests : list (FilterConfigurationBase * HeaderMap)) (store : Store) :
  exists extra,
    computeEffectiveConfiguration_each requests store = store ++ extra.
Proof.
  revert store.
  induction requests as [|[self headers] requests IH]; intros store.
  - exists []. symmetry. apply app_nil_r.
  - unfold computeEffectiveConfiguration_each in *. simpl.
    destruct (computeEffectiveConfiguration_extends self headers store)
      as [extra1 E1].
    rewrite E1.
    destruct (IH (store ++ extra1)) as [extra2 E2].
    rewrite E2. exists (extra1 ++ extra2). symmetry. apply app_assoc.
Qed.

(** X1.  An object of the store is never changed nor removed by
    resolutions, whatever the requests are and whichever configuration
    objects they go through: an effective configuration handed to one
    request stays what it was while later requests are resolved. *)
Theorem resolutions_keep_stored_objects
  (requests : list (FilterConfigurationBase * HeaderMap)) (store : Store)
  (p : EffectiveFilterConfigurationPtr) (object : ResponseOptions) :
  store !! p = Some object ->
  computeEffectiveConfiguration_each requests store !! p = Some object.
Proof.
  intros Hp.
  destruct (computeEffectiveConfiguration_each_extends requests store)
    as [extra E].
  rewrite E. apply lookup_app_old. exact Hp.
Qed.

(** X2.  A sequence of resolutions allocates at most one object for each
    request that carries exactly one override value, and nothing at all
    when no request does. *)
Theorem resolutions_allocate_only_for_single_overrides
  (requests : list (FilterConfigurationBase * HeaderMap)) (store : Store) :
  let single request :=
    Nat.eqb (length (get TestServerConfig (snd request))) 1 in
  (length store
   <= length (computeEffectiveConfiguration_each requests store)
   <= length store + length (List.filter single requests))%nat
  /\ (List.filter single requests = [] ->
      computeEffectiveConfiguration_each requests store = store).
Proof.
  intros single.
  assert (Hsingle : forall self headers,
             single (self, headers)
             = Nat.eqb (length (get TestServerConfig headers)) 1)
    by reflexivity.
  clearbody single. revert store.
  induction requests as [|[self headers] requests IH]; intros store.
  - simpl. split; [lia | reflexivity].
  - unfold computeEffectiveConfiguration_each in *. simpl fold_left.
    simpl List.filter. rewrite Hsingle.
    set (store1 := snd (computeEffectiveConfiguration self headers store)).
    assert (Hstep :
      if Nat.eqb (length (get TestServerConfig headers)) 1
      then (length store <= length store1 <= length store + 1)%nat
      else store1 = store).
    { subst store1. unfold computeEffectiveConfiguration.
      destruct (Nat.eqb (length (get TestServerConfig headers)) 1).
      - destruct (mergeJsonConfig _ _ _) as [[merged options] message].
        destruct merged; simpl; rewrite ?length_app; simpl; lia.
      - destruct (Nat.ltb 1 _); reflexivity. }
    destruct (IH store1) as [Hbound Hnone].
    destruct (Nat.eqb (length (get TestServerConfig headers)) 1).
    + split; [simpl length; lia | discriminate].
    + rewrite Hstep in *. split; [exact Hbound | exact Hnone].
Qed.

(** X3.  A successful resolution always returns the address of a live
    object: the base object itself when the request has no override
    value, and otherwise an address that was not in use before, so the
    result of an override never aliases the base or an earlier result. *)
Theorem computeEffectiveConfiguration_returns_live_object
  (self : FilterConfigurationBase) (headers : HeaderMap) (store : Store)
  (base : ResponseOptions) (p : EffectiveFilterConfigurationPtr) :
  store !! server_config_ self = Some base ->
  fst (computeEffectiveConfiguration self headers store) = OkValue p ->
  exists object,
    snd (computeEffectiveConfiguration self headers store) !! p = Some object
    /\ ((get TestServerConfig headers = []
         /\ p = server_config_ self /\ object = base)
        \/ (length (get TestServerConfig headers) = 1%nat
            /\ store !! p = None /\ p <> server_config_ self)).
Proof.
  intros Hbase. unfold computeEffectiveConfiguration.
  destruct (Nat.eqb_spec (length (get TestServerConfig headers)) 1) as [E1|N1].
  - destruct (mergeJsonConfig _ _ _) as [[merged options] message].
    destruct merged; simpl; [|discriminate].
    intros [= <-]. exists options.
    split; [apply list_lookup_middle; reflexivity|].
    right. split; [exact E1|]. split.
    + apply lookup_ge_None. lia.
    + apply lookup_lt_Some in Hbase. lia.
  - destruct (Nat.ltb_spec 1 (length (get TestServerConfig headers)));
      simpl; [discriminate|].
    intros [= <-]. exists base. split; [exact Hbase|].
    left. split; [|split; reflexivity].
    destruct (get TestServerConfig headers) as [|v [|w rest]];
      simpl in *; [reflexivity | lia | lia].
Qed.

(** X4.  A failed resolution always has the code [kInvalidArgument],
    leaves the store as it was, and only happens for a request that
    carries an override value; with two values or more the message is the
    fixed one, with one value it is the message of the merge. *)
Theorem computeEffectiveConfiguration_errors
  (self : FilterConfigurationBase) (headers : HeaderMap) (store : Store)
  (code : StatusCode) (message : string) :
  fst (computeEffectiveConfiguration self headers store)
  = ErrorStatus code message ->
  code = kInvalidArgument
  /\ snd (computeEffectiveConfiguration self headers store) = store
  /\ get TestServerConfig headers <> []
  /\ ((2 <= length (get TestServerConfig headers))%nat ->
      message
      = "Received multiple configuration headers in the request, expected only one.")
  /\ (forall value,
        get TestServerConfig headers = [value] ->
        let merge :=
          mergeJsonConfig value (deref store (server_config_ self)) "" in
        fst (fst merge) = false /\ snd merge = message).
Proof.
  unfold computeEffectiveConfiguration.
  destruct (Nat.eqb_spec (length (get TestServerConfig headers)) 1) as [E1|N1].
  - destruct (get TestServerConfig headers) as [|v [|w rest]] eqn:Hget;
      try discriminate.
    simpl nth.
    destruct (mergeJsonConfig v _ _) as [[merged options] error_message]
      eqn:Hmerge.
    destruct merged; simpl; [discriminate|].
    intros [= <- <-].
    split; [reflexivity|]. split; [reflexivity|]. split; [discriminate|].
    split.
    + intros Hlen. simpl in Hlen. lia.
    + intros value [= <-]. cbv zeta. rewrite Hmerge. split; reflexivity.
  - destruct (Nat.ltb_spec 1 (length (get TestServerConfig headers)));
      simpl; [|discriminate].
    intros [= <- <-].
    split; [reflexivity|]. split; [reflexivity|]. split.
    + intros E. rewrite E in *. simpl in *. lia.
    + split; [reflexivity|].
      intros value E. rewrite E in *. simpl in *. lia.
Qed.

(** The values of a header are not affected by an entry under another
    name. *)
Lemma get_insert_other (key other value : string) (before after : HeaderMap) :
  other <> key ->
  get key (before ++ (other, value) :: after) = get key (before ++ after).
Proof.
  intros Hne. unfold get. rewrite !List.filter_app. simpl.
  destruct (String.eqb_spec other key); [contradiction | reflexivity].
Qed.

(** X5.  The resolution reads the request headers only through the
    values of the override header: an entry under any other name,
    wherever it stands in the header map, does not change the result. *)
Theorem computeEffectiveConfiguration_ignores_other_headers
  (self : FilterConfigurationBase) (before after : HeaderMap)
  (name value : string) (store : Store) :
  name <> TestServerConfig ->
  computeEffectiveConfiguration self (before ++ (name, value) :: after) store
  = computeEffectiveConfiguration self (before ++ after) store.
Proof.
  intros Hne. unfold computeEffectiveConfiguration.
  rewrite (get_insert_other _ _ _ _ _ Hne). reflexivity.
Qed.

End ResolutionFurther.

(** ** The time-tracking filter over whole requests *)

Section TimeTrackingFurther.
Context `{ServerApi}.

(** The three outcomes of a resolution, by the values of the override
    header. *)
Lemma computeEffectiveConfiguration_cases
  (self : FilterConfigurationBase) (headers : HeaderMap) (store : Store) :
  computeEffectiveConfiguration self headers store
  = match get TestServerConfig headers with
    | [] => (OkValue (server_config_ self), store)
    | [value] =>
        match mergeJsonConfig value (deref store (server_config_ self)) "" with
        | (true, response_options, _) =>
            (OkValue (length store), store ++ [response_options])
        | (false, _, error_message) =>
            (InvalidArgumentError error_message, store)
        end
    | _ :: _ :: _ =>
        (InvalidArgumentError
           "Received multiple configuration headers in the request, expected only one.",
         store)
    end.
Proof.
  unfold computeEffectiveConfiguration.
  destruct (get TestServerConfig headers) as [|value [|second rest]].
  - reflexivity.
  - simpl.
    destruct (mergeJsonConfig _ _ _) as [[merged response_options] message].
    destruct merged; reflexivity.
  - reflexivity.
Qed.

(** With a resolved configuration, [decodeData] does nothing. *)
Lemma decodeData_resolved
  (config : HttpTimeTrackingFilterConfig) (self : HttpTimeTrackingFilter)
  (end_stream : bool) (p : EffectiveFilterConfigurationPtr) :
  effective_config_ self = OkValue p ->
  decodeData config self end_stream = (DataContinue, self).
Proof.
  destruct self as [effective delta callbacks]. simpl. intros ->.
  destruct end_stream; reflexivity.
Qed.

(** With a resolved configuration, [decodeHeaders] only records it. *)
Lemma decode_call_headers_resolved
  (config : HttpTimeTrackingFilterConfig) (self : HttpTimeTrackingFilter)
  (headers : HeaderMap) (end_stream : bool) (store : Store)
  (p : EffectiveFilterConfigurationPtr) :
  fst (computeEffectiveConfiguration (time_tracking_base config) headers store)
  = OkValue p ->
  decode_call config (self, store) (CallDecodeHeaders headers end_stream)
  = ({| effective_config_ := OkValue p;
        last_request_delta_ns_ := last_request_delta_ns_ self;
        decoder_callbacks_ := decoder_callbacks_ self |},
     snd (computeEffectiveConfiguration (time_tracking_base config)
            headers store)).
Proof.
  unfold decode_call, decodeHeaders.
  destruct (computeEffectiveConfiguration (time_tracking_base config)
              headers store) as [resolution store'].
  simpl. intros ->. destruct end_stream; reflexivity.
Qed.

(** X6.  A request whose configuration was resolved never gets a local
    reply from the filter: through [decodeHeaders] and any pieces of body,
    with or without [end_stream], the local replies stay as they were and
    the filter keeps the resolved configuration. *)
Theorem resolved_request_gets_no_local_reply
  (config : HttpTimeTrackingFilterConfig) (self : HttpTimeTrackingFilter)
  (headers : HeaderMap) (end_stream : bool) (pieces : list bool)
  (store : Store) (p : EffectiveFilterConfigurationPtr) :
  fst (computeEffectiveConfiguration (time_tracking_base config) headers store)
  = OkValue p ->
  let final :=
    decode_calls config (self, store)
      (CallDecodeHeaders headers end_stream :: map CallDecodeData pieces) in
  local_replies (decoder_callbacks_ (fst final))
  = local_replies (decoder_callbacks_ self)
  /\ effective_config_ (fst final) = OkValue p
  /\ snd final
     = snd (computeEffectiveConfiguration (time_tracking_base config)
              headers store).
Proof.
  intros Hresolved final. subst final.
  change (decode_calls config (self, store)
            (CallDecodeHeaders headers end_stream :: map CallDecodeData pieces))
    with (decode_calls config
            (decode_call config (self, store)
               (CallDecodeHeaders headers end_stream))
            (map CallDecodeData pieces)).
  rewrite (decode_call_headers_resolved _ _ _ _ _ p Hresolved).
  set (resolved :=
         {| effective_config_ := OkValue p;
            last_request_delta_ns_ := last_request_delta_ns_ self;
            decoder_callbacks_ := decoder_callbacks_ self |}).
  set (store' := snd (computeEffectiveConfiguration _ headers store)).
  assert (Hrest :
    decode_calls config (resolved, store') (map CallDecodeData pieces)
    = (resolved, store')).
  { induction pieces as [|piece pieces IH]; [reflexivity|].
    unfold decode_calls in *. simpl.
    rewrite (decodeData_resolved config resolved piece p eq_refl).
    exact IH. }
  rewrite Hrest. simpl. repeat split.
Qed.

(** What one decoding callback adds to the local replies. *)
Lemma decode_call_replies
  (config : HttpTimeTrackingFilterConfig)
  (state : HttpTimeTrackingFilter * Store) (call : DecodeCall) :
  exists added,
    local_replies (decoder_callbacks_ (fst (decode_call config state call)))
    = local_replies (decoder_callbacks_ (fst state)) ++ added
    /\ (length added <= if call_end_stream call then 1 else 0)%nat
    /\ Forall
         (fun reply =>
            fst reply = 500
            /\ exists message,
                 snd reply
                 = filter_name_ (time_tracking_base config)
                     +:+ " didn't understand the request: " +:+ message)
         added.
Proof.
  destruct state as [self store].
  assert (Hvalidate : forall effective,
    exists added,
      local_replies
        (snd (validateOrSendError (time_tracking_base config) effective
                (decoder_callbacks_ self)))
      = local_replies (decoder_callbacks_ self) ++ added
      /\ (length added <= 1)%nat
      /\ Forall
           (fun reply =>
              fst reply = 500
              /\ exists message,
                   snd reply
                   = filter_name_ (time_tracking_base config)
                       +:+ " didn't understand the request: " +:+ message)
           added).
  { intros [p|code message]; simpl.
    - exists []. rewrite app_nil_r.
      split; [reflexivity|]. split; [simpl; lia | constructor].
    - eexists. split; [reflexivity|]. split; [simpl; lia|].
      repeat constructor. exists message. reflexivity. }
  assert (Hnone :
    exists added : list (Z * string),
      local_replies (decoder_callbacks_ self)
      = local_replies (decoder_callbacks_ self) ++ added
      /\ (length added <= 0)%nat
      /\ Forall
           (fun reply =>
              fst reply = 500
              /\ exists message,
                   snd reply
                   = filter_name_ (time_tracking_base config)
                       +:+ " didn't understand the request: " +:+ message)
           added).
  { exists []. rewrite app_nil_r.
    split; [reflexivity|]. split; [simpl; lia | constructor]. }
  destruct call as [headers end_stream|end_stream]; simpl.
  - unfold decodeHeaders.
    destruct (computeEffectiveConfiguration _ headers store)
      as [effective store'].
    destruct end_stream; [|exact Hnone].
    specialize (Hvalidate effective).
    destruct (validateOrSendError _ effective _) as [sent callbacks].
    destruct sent; exact Hvalidate.
  - unfold decodeData.
    destruct end_stream; [|exact Hnone].
    specialize (Hvalidate (effective_config_ self)).
    destruct (validateOrSendError _ (effective_config_ self) _)
      as [sent callbacks].
    destruct sent; exact Hvalidate.
Qed.

(** X7.  Whatever callbacks are made, the filter only ever appends to the
    local replies of its stream: the replies sent before stay in place,
    at most one reply is added for each callback that carries
    [end_stream], and every added reply has status 500 and a body that
    starts with the filter name and [didn't understand the request:]. *)
Theorem local_replies_only_grow_by_errors
  (config : HttpTimeTrackingFilterConfig)
  (state : HttpTimeTrackingFilter * Store) (calls : list DecodeCall) :
  exists added,
    local_replies (decoder_callbacks_ (fst (decode_calls config state calls)))
    = local_replies (decoder_callbacks_ (fst state)) ++ added
    /\ (length added <= length (List.filter call_end_stream calls))%nat
    /\ Forall
         (fun reply =>
            fst reply = 500
            /\ exists message,
                 snd reply
                 = filter_name_ (time_tracking_base config)
                     +:+ " didn't understand the request: " +:+ message)
         added.
Proof.
  revert state. induction calls as [|call calls IH]; intros state.
  - exists []. simpl. rewrite app_nil_r.
    split; [reflexivity|]. split; [lia | constructor].
  - destruct (decode_call_replies config state call)
      as (added1 & E1 & Hlen1 & Hall1).
    destruct (IH (decode_call config state call))
      as (added2 & E2 & Hlen2 & Hall2).
    exists (added1 ++ added2).
    change (decode_calls config state (call :: calls))
      with (decode_calls config (decode_call config state call) calls).
    rewrite E2, E1, app_assoc. split; [reflexivity|]. split.
    + rewrite length_app. simpl List.filter.
      destruct (call_end_stream call); simpl length; lia.
    + apply Forall_app. split; assumption.
Qed.

(** The decoding callbacks never touch the measured gap. *)
Lemma decode_calls_keep_gap
  (config : HttpTimeTrackingFilterConfig)
  (state : HttpTimeTrackingFilter * Store) (calls : list DecodeCall) :
  last_request_delta_ns_ (fst (decode_calls config state calls))
  = last_request_delta_ns_ (fst state).
Proof.
  revert state. induction calls as [|call calls IH]; intros state;
    [reflexivity|].
  change (decode_calls config state (call :: calls))
    with (decode_calls config (decode_call config state call) calls).
  rewrite IH. destruct state as [self store].
  destruct call as [headers end_stream|end_stream]; simpl.
  - unfold decodeHeaders.
    destruct (computeEffectiveConfiguration _ headers store)
      as [effective store'].
    destruct end_stream; [|reflexivity].
    destruct (validateOrSendError _ effective _) as [sent callbacks].
    destruct sent; reflexivity.
  - unfold decodeData. destruct end_stream; [|reflexivity].
    destruct (validateOrSendError _ (effective_config_ self) _)
      as [sent callbacks].
    destruct sent; reflexivity.
Qed.

(** X8.  The gap that the filter reports is the one measured when it was
    attached to its stream: after [setDecoderFilterCallbacks], no sequence
    of decoding callbacks changes [last_request_delta_ns_], and attaching
    the filter leaves the base configuration of the shared configuration
    object alone. *)
Theorem measured_gap_survives_decoding
  (config : HttpTimeTrackingFilterConfig) (self : HttpTimeTrackingFilter)
  (callbacks : StreamDecoderFilterCallbacks) (now : Z)
  (calls : list DecodeCall) (store : Store) :
  let '(filter, config') :=
    setDecoderFilterCallbacks config self callbacks now in
  last_request_delta_ns_ (fst (decode_calls config' (filter, store) calls))
  = fst (getElapsedNanosSinceLastRequest config now)
  /\ time_tracking_base config' = time_tracking_base config
  /\ effective_config_ filter = effective_config_ self.
Proof.
  unfold setDecoderFilterCallbacks.
  destruct (getElapsedNanosSinceLastRequest config now) as [elapsed config']
    eqn:Helapsed.
  rewrite decode_calls_keep_gap. simpl. split; [reflexivity|].
  split; [|reflexivity].
  unfold getElapsedNanosSinceLastRequest in Helapsed.
  destruct (getElapsedNsAndReset (stopwatch_ config) now).
  injection Helapsed as _ <-. reflexivity.
Qed.

(** X9.  A time-tracking configuration built by its constructor answers
    a request that ends with its headers and carries two or more override
    values with status 500 and the body naming the filter
    [time-tracking] and the duplicate-header message; the iteration
    stops and nothing is allocated. *)
Theorem time_tracking_rejects_duplicate_override
  (experimental_response_options : ResponseOptions) (store0 : Store)
  (self : HttpTimeTrackingFilter) (headers : HeaderMap) :
  (2 <= length (get TestServerConfig headers))%nat ->
  let '(config, store) :=
    HttpTimeTrackingFilterConfig_new experimental_response_options store0 in
  let '(status, after, store') :=
    decodeHeaders config self headers true store in
  status = HeadersStopIteration
  /\ store' = store
  /\ local_replies (decoder_callbacks_ after)
     = local_replies (decoder_callbacks_ self)
       ++ [(500,
            "time-tracking didn't understand the request: Received multiple configuration headers in the request, expected only one.")].
Proof.
  intros Hlen.
  unfold HttpTimeTrackingFilterConfig_new, FilterConfigurationBase_new,
    make_shared, decodeHeaders.
  simpl time_tracking_base.
  rewrite computeEffectiveConfiguration_cases.
  destruct (get TestServerConfig headers) as [|value [|second rest]];
    simpl in Hlen; try lia.
  simpl. repeat split.
Qed.

(** X10.  For a request without override value, the filter built from a
    configuration uses the response-gap header name of the
    [ResponseOptions] given to the constructor: after [decodeHeaders],
    [encodeHeaders] appends the gap under that name, lower-cased, when the
    name is not empty and the gap is above zero, and nothing otherwise. *)
Theorem time_tracking_uses_constructed_configuration
  (experimental_response_options : ResponseOptions) (store0 : Store)
  (self : HttpTimeTrackingFilter) (headers : HeaderMap) (end_stream : bool)
  (response_headers : HeaderMap) :
  get TestServerConfig headers = [] ->
  let name :=
    emit_previous_request_delta_in_response_header
      experimental_response_options in
  let '(config, store) :=
    HttpTimeTrackingFilterConfig_new experimental_response_options store0 in
  let '(_, after, store') :=
    decodeHeaders config self headers end_stream store in
  encodeHeaders after response_headers store'
  = (HeadersContinue,
     if negb (String.eqb name "") && (0 <? last_request_delta_ns_ self)
     then appendCopy (LowerCaseString name)
            (StrCat (last_request_delta_ns_ self)) response_headers
     else response_headers).
Proof.
  intros Hget name.
  unfold HttpTimeTrackingFilterConfig_new, FilterConfigurationBase_new,
    make_shared, decodeHeaders.
  simpl time_tracking_base.
  rewrite computeEffectiveConfiguration_cases, Hget.
  simpl server_config_.
  assert (Hderef : deref (store0 ++ [experimental_response_options])
                         (length store0)
                   = experimental_response_options).
  { apply deref_lookup. apply list_lookup_middle. reflexivity. }
  destruct end_stream; simpl; unfold encodeHeaders; simpl;
    rewrite Hderef; fold name;
    destruct (negb (String.eqb name "") && (0 <? last_request_delta_ns_ self));
    reflexivity.
Qed.

(** [appendCopy] leaves the values under other names alone. *)
Lemma get_appendCopy_other (key name value : string) (headers : HeaderMap) :
  key <> name ->
  get key (appendCopy name value headers) = get key headers.
Proof.
  intros Hne. unfold get.
  induction headers as [|[k v] rest IH]; simpl.
  - destruct (String.eqb_spec name key); [congruence | reflexivity].
  - destruct (String.eqb_spec k name) as [->|Hk]; simpl.
    + destruct (String.eqb_spec name key); [congruence | reflexivity].
    + destruct (String.eqb k key); simpl; rewrite IH; reflexivity.
Qed.

Lemma length_appendCopy (name value : string) (headers : HeaderMap) :
  (length headers <= length (appendCopy name value headers)
   <= length headers + 1)%nat.
Proof.
  induction headers as [|[k v] rest IH]; simpl.
  - lia.
  - destruct (String.eqb k name); simpl; lia.
Qed.

(** X11.  [encodeHeaders] leaves every other response header alone: the
    values under any name other than the lower-cased response-gap name
    are what they were, and the number of entries grows by one at most. *)
Theorem encodeHeaders_keeps_other_headers
  (self : HttpTimeTrackingFilter) (response_headers : HeaderMap)
  (store : Store) (key : string) :
  (forall p,
      effective_config_ self = OkValue p ->
      key <> LowerCaseString
               (emit_previous_request_delta_in_response_header
                  (deref store p))) ->
  get key (snd (encodeHeaders self response_headers store))
  = get key response_headers
  /\ (length response_headers
      <= length (snd (encodeHeaders self response_headers store))
      <= length response_headers + 1)%nat.
Proof.
  intros Hkey. unfold encodeHeaders.
  destruct (effective_config_ self) as [p|code message]; [|simpl; split; [reflexivity|lia]].
  specialize (Hkey p eq_refl).
  destruct (negb _ && _); simpl.
  - split; [apply get_appendCopy_other; exact Hkey | apply length_appendCopy].
  - split; [reflexivity | lia].
Qed.

End TimeTrackingFurther.

(** ** The count of active filter instances, in general *)

Lemma counter_run_app (process : Process)
  (ops1 ops2 : list (HttpDynamicDelayDecoderFilterConfig * CounterOp)) :
  counter_run process (ops1 ++ ops2)
  = counter_run (counter_run process ops1) ops2.
Proof. apply fold_left_app. Qed.

Lemma net_change_app (ops1 ops2 : list CounterOp) :
  net_change (ops1 ++ ops2) = net_change ops1 + net_change ops2.
Proof.
  induction ops1 as [|op ops1 IH]; [reflexivity|].
  rewrite <- app_comm_cons, (net_change_cons op (ops1 ++ ops2)),
    (net_change_cons op ops1), IH. lia.
Qed.

(** The count from the start of the process. *)
Lemma counter_run_from_start
  (ops : list (HttpDynamicDelayDecoderFilterConfig * CounterOp)) :
  fst (instances (counter_run process_start ops))
  = net_change (map snd ops) mod UINT64_MODULUS.
Proof.
  rewrite counter_run_count.
  - reflexivity.
  - simpl. unfold UINT64_MODULUS. lia.
Qed.

(** X12.  From the start of the process, the count read through any
    configuration object is the number of increments minus the number of
    decrements made so far, modulo 2^64.  It is exactly that difference
    while decrements do not outnumber increments; a decrement without an
    increment to match wraps around to 2^64 - 1 rather than stopping at
    zero. *)
Theorem counter_counts_net_operations
  (ops : list (HttpDynamicDelayDecoderFilterConfig * CounterOp))
  (observer : HttpDynamicDelayDecoderFilterConfig) :
  let net := net_change (map snd ops) in
  let count :=
    fst (approximateFilterInstances observer (counter_run process_start ops)) in
  count = net mod UINT64_MODULUS
  /\ (0 <= net < UINT64_MODULUS -> count = net)
  /\ (- UINT64_MODULUS <= net < 0 -> count = UINT64_MODULUS + net).
Proof.
  intros net count. subst count. unfold approximateFilterInstances.
  rewrite counter_run_from_start. fold net.
  split; [reflexivity|]. split.
  - intros Hnet. apply Z.mod_small. exact Hnet.
  - intros Hnet. symmetry.
    apply (Z.mod_unique net UINT64_MODULUS (-1) (UINT64_MODULUS + net));
      unfold UINT64_MODULUS in *; lia.
Qed.

(** X13.  An increment followed by a decrement, or a decrement followed
    by an increment, made through any configuration objects, leaves the
    count where it was, at every point of every execution: also at zero
    and at 2^64 - 1, where one of the two wraps around. *)
Theorem increment_and_decrement_cancel
  (ops : list (HttpDynamicDelayDecoderFilterConfig * CounterOp))
  (a b observer : HttpDynamicDelayDecoderFilterConfig) :
  let process := counter_run process_start ops in
  fst (approximateFilterInstances observer
         (decrementFilterInstanceCount b
            (incrementFilterInstanceCount a process)))
  = fst (approximateFilterInstances observer process)
  /\ fst (approximateFilterInstances observer
            (incrementFilterInstanceCount b
               (decrementFilterInstanceCount a process)))
     = fst (approximateFilterInstances observer process).
Proof.
  intros process. subst process. unfold approximateFilterInstances.
  change (decrementFilterInstanceCount b
            (incrementFilterInstanceCount a (counter_run process_start ops)))
    with (counter_run (counter_run process_start ops)
            [(a, Increment); (b, Decrement)]).
  change (incrementFilterInstanceCount b
            (decrementFilterInstanceCount a (counter_run process_start ops)))
    with (counter_run (counter_run process_start ops)
            [(a, Decrement); (b, Increment)]).
  rewrite <- !counter_run_app, !counter_run_from_start, !map_app,
    !net_change_app.
  change (net_change (map snd [(a, Increment); (b, Decrement)])) with 0.
  change (net_change (map snd [(a, Decrement); (b, Increment)])) with 0.
  rewrite Z.add_0_r. split; reflexivity.
Qed.

(** ** The linear delay, further *)

(** The computation of the source on any count of nanoseconds of
    magnitude below 2^53. *)
Lemma delay_of_total (total : Z) :
  - 2 ^ 53 < total < 2 ^ 53 ->
  int64_of_double (std_round (double_div (double_of_int64 total) double_1e6))
  = Some (round_half_away total 1000000).
Proof.
  intros Htotal. unfold round_half_away.
  destruct total as [|p|p].
  - reflexivity.
  - pose proof (delay_of_nanoseconds false p ltac:(lia)) as Hdelay.
    unfold cond_Zopp in Hdelay. rewrite Hdelay.
    change (Z.sgn (Zpos p)) with 1. change (Z.abs (Zpos p)) with (Zpos p).
    change (2 * 1000000) with 2000000.
    rewrite Z.mul_1_l. reflexivity.
  - pose proof (delay_of_nanoseconds true p ltac:(lia)) as Hdelay.
    unfold cond_Zopp in Hdelay. change (- Zpos p) with (Zneg p) in Hdelay.
    rewrite Hdelay.
    change (Z.sgn (Zneg p)) with (-1). change (Z.abs (Zneg p)) with (Zpos p).
    change (2 * 1000000) with 2000000.
    reflexivity.
Qed.

Lemma DurationToNanoseconds_milliseconds (ms : Z) :
  DurationToNanoseconds (milliseconds ms) = ms * 1000000.
Proof. apply DurationToNanoseconds_NanosecondsToDuration. Qed.

(** A whole number of units rounds to itself. *)
Lemma round_half_away_multiple (k den : Z) :
  0 < den -> round_half_away (k * den) den = k.
Proof.
  intros Hden. unfold round_half_away.
  assert (Hdiv : (2 * Z.abs (k * den) + den) / (2 * den) = Z.abs k).
  { symmetry.
    apply (Z.div_unique _ (2 * den) (Z.abs k) den); [lia|].
    rewrite Z.abs_mul, (Z.abs_eq den) by lia. ring. }
  rewrite Hdiv.
  destruct (Z.lt_trichotomy k 0) as [Hneg|[->|Hpos]].
  - rewrite Z.sgn_neg by nia. lia.
  - reflexivity.
  - rewrite Z.sgn_pos by nia. lia.
Qed.

(** Rounding keeps the order. *)
Lemma round_half_away_monotone (num1 num2 den : Z) :
  0 < den -> num1 <= num2 ->
  round_half_away num1 den <= round_half_away num2 den.
Proof.
  intros Hden Hle. unfold round_half_away.
  assert (Hnonneg : forall n, 0 <= (2 * Z.abs n + den) / (2 * den)).
  { intros n. apply Z.div_pos; lia. }
  assert (Hmono : forall n1 n2,
             Z.abs n1 <= Z.abs n2 ->
             (2 * Z.abs n1 + den) / (2 * den)
             <= (2 * Z.abs n2 + den) / (2 * den)).
  { intros n1 n2 Habs. apply Z.div_le_mono; lia. }
  pose proof (Hnonneg num1) as H1. pose proof (Hnonneg num2) as H2.
  pose proof (Hmono num1 num2) as H12. pose proof (Hmono num2 num1) as H21.
  set (K1 := (2 * Z.abs num1 + den) / (2 * den)) in *.
  set (K2 := (2 * Z.abs num2 + den) / (2 * den)) in *.
  destruct (Z.lt_trichotomy num1 0) as [S1|[S1|S1]];
    destruct (Z.lt_trichotomy num2 0) as [S2|[S2|S2]];
    try (rewrite (Z.sgn_neg num1) by lia);
    try (rewrite (Z.sgn_null num1) by lia);
    try (rewrite (Z.sgn_pos num1) by lia);
    try (rewrite (Z.sgn_neg num2) by lia);
    try (rewrite (Z.sgn_null num2) by lia);
    try (rewrite (Z.sgn_pos num2) by lia);
    lia.
Qed.

(** X14.  For delays given in whole milliseconds the computation is
    exact: with a minimal delay of [a] ms and a factor of [b] ms it
    returns [a + concurrency * b], as long as this is within 9007199254 ms
    (about 104 days). *)
Theorem linear_delay_of_whole_milliseconds (concurrency a b : Z) :
  - 9007199254 <= a + concurrency * b <= 9007199254 ->
  computeConcurrencyBasedLinearDelayMs concurrency
    (milliseconds a) (milliseconds b)
  = Some (a + concurrency * b).
Proof.
  intros Hrange. unfold computeConcurrencyBasedLinearDelayMs.
  rewrite linear_delay_nanoseconds, !DurationToNanoseconds_milliseconds.
  replace (a * 1000000 + concurrency * (b * 1000000))
    with ((a + concurrency * b) * 1000000) by ring.
  rewrite delay_of_total by lia.
  rewrite round_half_away_multiple by lia. reflexivity.
Qed.

(** X15.  With a delay factor that is not negative, the delay does not
    decrease when the concurrency increases (as long as the sums stay
    below 2^53 nanoseconds). *)
Theorem linear_delay_grows_with_concurrency
  (low high : Z) (minimal_delay delay_factor : Duration) :
  low <= high ->
  0 <= DurationToNanoseconds delay_factor ->
  - 2 ^ 53 < DurationToNanoseconds minimal_delay
             + low * DurationToNanoseconds delay_factor ->
  DurationToNanoseconds minimal_delay
  + high * DurationToNanoseconds delay_factor < 2 ^ 53 ->
  exists delay_low delay_high,
    computeConcurrencyBasedLinearDelayMs low minimal_delay delay_factor
    = Some delay_low
    /\ computeConcurrencyBasedLinearDelayMs high minimal_delay delay_factor
       = Some delay_high
    /\ delay_low <= delay_high.
Proof.
  intros Hle Hfactor Hlow Hhigh.
  assert (Hmono : low * DurationToNanoseconds delay_factor
                  <= high * DurationToNanoseconds delay_factor)
    by (apply Z.mul_le_mono_nonneg_r; assumption).
  unfold computeConcurrencyBasedLinearDelayMs.
  rewrite !linear_delay_nanoseconds, !delay_of_total by lia.
  do 2 eexists. split; [reflexivity|]. split; [reflexivity|].
  apply round_half_away_monotone; lia.
Qed.

(** X16.  Below 2^53 nanoseconds the delay returned is within half a
    millisecond of the exact sum, and it is half a millisecond off only
    on the side away from zero. *)
Theorem linear_delay_within_half_millisecond
  (concurrency : Z) (minimal_delay delay_factor : Duration) :
  let total :=
    DurationToNanoseconds minimal_delay
    + concurrency * DurationToNanoseconds delay_factor in
  - 2 ^ 53 < total < 2 ^ 53 ->
  exists delay,
    computeConcurrencyBasedLinearDelayMs concurrency minimal_delay delay_factor
    = Some delay
    /\ 2 * Z.abs (total - delay * 1000000) <= 1000000
    /\ (2 * Z.abs (total - delay * 1000000) = 1000000 ->
        Z.abs total < Z.abs (delay * 1000000)).
Proof.
  intros total Htotal. unfold computeConcurrencyBasedLinearDelayMs.
  rewrite linear_delay_nanoseconds. fold total.
  rewrite delay_of_total by exact Htotal.
  eexists. split; [reflexivity|].
  exact (round_half_away_nearest total 1000000 ltac:(lia)).
Qed.

(** X17.  Below 2^53 nanoseconds the computation returns 0 exactly when
    the sum is less than half a millisecond in magnitude, and otherwise a
    delay of the sign of the sum. *)
Theorem linear_delay_zero_below_half_millisecond
  (concurrency : Z) (minimal_delay delay_factor : Duration) :
  let total :=
    DurationToNanoseconds minimal_delay
    + concurrency * DurationToNanoseconds delay_factor in
  - 2 ^ 53 < total < 2 ^ 53 ->
  exists delay,
    computeConcurrencyBasedLinearDelayMs concurrency minimal_delay delay_factor
    = Some delay
    /\ (delay = 0 <-> - 500000 < total < 500000)
    /\ (500000 <= total -> 0 < delay)
    /\ (total <= - 500000 -> delay < 0).
Proof.
  intros total Htotal. unfold computeConcurrencyBasedLinearDelayMs.
  rewrite linear_delay_nanoseconds. fold total.
  rewrite delay_of_total by exact Htotal.
  eexists. split; [reflexivity|].
  pose proof (round_half_away_nearest total 1000000 ltac:(lia)) as [Hnear Htie].
  cbv zeta in Hnear, Htie.
  set (delay := round_half_away total 1000000) in *.
  split; [split|split].
  - intros E. rewrite E in *. lia.
  - intros Hsmall. lia.
  - intros Hbig. lia.
  - intros Hbig. lia.
Qed.

(** ** The linear delay over the whole 64-bit range *)

(** A shift record is its mantissa with its location. *)
Lemma shr_record_of_loc_of (mrs : shr_record) :
  shr_record_of_loc (shr_m mrs) (loc_of_shr_record mrs) = mrs.
Proof. destruct mrs as [m [] []]; reflexivity. Qed.

(** Any number of shifts keeps the mantissa located, against the
    denominator scaled by the same power of two. *)
Lemma located_iter_shr_1 (num : Z) (k : positive) :
  forall (den : Z) (mrs : shr_record),
    0 < den -> 0 <= shr_m mrs ->
    located num den (shr_m mrs) (loc_of_shr_record mrs) ->
    shr_m (SpecFloat.iter_pos shr_1 k mrs) = shr_m mrs / 2 ^ Zpos k
    /\ located num (den * 2 ^ Zpos k) (shr_m (SpecFloat.iter_pos shr_1 k mrs))
         (loc_of_shr_record (SpecFloat.iter_pos shr_1 k mrs)).
Proof.
  assert (Hstep : forall den mrs,
    0 < den -> 0 <= shr_m mrs ->
    located num den (shr_m mrs) (loc_of_shr_record mrs) ->
    shr_m (shr_1 mrs) = shr_m mrs / 2
    /\ located num (den * 2) (shr_m (shr_1 mrs))
         (loc_of_shr_record (shr_1 mrs))).
  { intros den mrs Hden Hm Hloc.
    destruct (located_shr_1 num den (shr_m mrs) (loc_of_shr_record mrs)
                Hden Hm Hloc) as [Em Hloc'].
    rewrite shr_record_of_loc_of in Em, Hloc'.
    rewrite Em at 1. split; [reflexivity|].
    rewrite Em. rewrite (Z.mul_comm den 2). exact Hloc'. }
  induction k as [k IH|k IH|]; intros den mrs Hden Hm Hloc.
  - (* 2k + 1 shifts *)
    simpl SpecFloat.iter_pos.
    destruct (Hstep den mrs Hden Hm Hloc) as [E1 L1].
    assert (H1 : 0 <= shr_m (shr_1 mrs))
      by (rewrite E1; apply Z.div_pos; lia).
    assert (Hk : 0 < 2 ^ Zpos k) by (apply Z.pow_pos_nonneg; lia).
    destruct (IH (den * 2) (shr_1 mrs) ltac:(lia) H1 L1) as [E2 L2].
    assert (H2 : 0 <= shr_m (SpecFloat.iter_pos shr_1 k (shr_1 mrs)))
      by (rewrite E2; apply Z.div_pos; lia).
    assert (Hden2 : 0 < den * 2 * 2 ^ Zpos k) by (apply Z.mul_pos_pos; lia).
    destruct (IH (den * 2 * 2 ^ Zpos k) _ Hden2 H2 L2) as [E3 L3].
    assert (Epow : 2 ^ Zpos k~1 = 2 * 2 ^ Zpos k * 2 ^ Zpos k).
    { replace (Zpos k~1) with (1 + Zpos k + Zpos k) by lia.
      rewrite !Z.pow_add_r by lia. reflexivity. }
    rewrite Epow. split.
    + rewrite E3, E2, E1, !Z.div_div by lia. f_equal. ring.
    + replace (den * (2 * 2 ^ Zpos k * 2 ^ Zpos k))
        with (den * 2 * 2 ^ Zpos k * 2 ^ Zpos k) by ring.
      exact L3.
  - (* 2k shifts *)
    simpl SpecFloat.iter_pos.
    assert (Hk : 0 < 2 ^ Zpos k) by (apply Z.pow_pos_nonneg; lia).
    destruct (IH den mrs Hden Hm Hloc) as [E2 L2].
    assert (H2 : 0 <= shr_m (SpecFloat.iter_pos shr_1 k mrs))
      by (rewrite E2; apply Z.div_pos; lia).
    assert (Hden2 : 0 < den * 2 ^ Zpos k) by (apply Z.mul_pos_pos; lia).
    destruct (IH (den * 2 ^ Zpos k) _ Hden2 H2 L2) as [E3 L3].
    assert (Epow : 2 ^ Zpos k~0 = 2 ^ Zpos k * 2 ^ Zpos k).
    { replace (Zpos k~0) with (Zpos k + Zpos k) by lia.
      rewrite Z.pow_add_r by lia. reflexivity. }
    rewrite Epow. split.
    + rewrite E3, E2, !Z.div_div by lia. f_equal.
    + replace (den * (2 ^ Zpos k * 2 ^ Zpos k))
        with (den * 2 ^ Zpos k * 2 ^ Zpos k) by ring.
      exact L3.
  - (* one shift *)
    simpl SpecFloat.iter_pos. change (2 ^ 1) with 2. apply Hstep; assumption.
Qed.

(** A mantissa of [53 + k] digits is shifted by [k] digits. *)
Lemma shr_fexp_wide (m e : Z) (k : positive) (l : location) :
  2 ^ (52 + Zpos k) <= m < 2 ^ (53 + Zpos k) -> -1074 <= e ->
  shr_fexp prec emax m e l
  = (SpecFloat.iter_pos shr_1 k (shr_record_of_loc m l), e + Zpos k).
Proof.
  intros Hm He. unfold shr_fexp.
  assert (Hpos : 0 < 2 ^ (52 + Zpos k)) by (apply Z.pow_pos_nonneg; lia).
  rewrite (Zdigits2_eq m (53 + Zpos k)).
  - unfold fexp, emin, prec, emax.
    replace (Z.max (53 + Zpos k + e - 53) (3 - 1024 - 53) - e)
      with (Zpos k) by lia.
    reflexivity.
  - lia.
  - replace (53 + Zpos k - 1) with (52 + Zpos k) by lia. exact Hm.
Qed.

(** The conversion of an integer from 2^53 up to 2^63 rounds it to 53
    digits: the result is within one unit in the last place. *)
Lemma binary_normalize_wide (s szero : bool) (p : positive) :
  2 ^ 53 <= Zpos p < 2 ^ 63 ->
  exists m e,
    binary_normalize prec emax (cond_Zopp s (Zpos p)) 0 szero
    = S754_finite s m e
    /\ 2 ^ 52 <= Zpos m < 2 ^ 53
    /\ 1 <= e <= 11
    /\ near (Zpos p) (2 ^ e) (Zpos m).
Proof.
  intros Hp.
  pose proof (digits2_pos_bounds p) as [Hlo Hhi].
  set (d := Zpos (digits2_pos p)) in *.
  assert (Hd : 54 <= d <= 63).
  { split.
    - destruct (Z.leb_spec 54 d) as [|Hlt]; [assumption|].
      assert (2 ^ d <= 2 ^ 53) by (apply Z.pow_le_mono_r; lia). lia.
    - destruct (Z.leb_spec d 63) as [|Hgt]; [assumption|].
      assert (2 ^ 63 <= 2 ^ (d - 1)) by (apply Z.pow_le_mono_r; lia). lia. }
  assert (Hround :
    exists m e,
      binary_round prec emax s p 0 = S754_finite s m e
      /\ 2 ^ 52 <= Zpos m < 2 ^ 53 /\ 1 <= e <= 11
      /\ near (Zpos p) (2 ^ e) (Zpos m)).
  { unfold binary_round, shl_align. fold d.
    unfold fexp, emin. unfold prec at 1. unfold emax at 1. unfold prec at 1.
    replace (Z.max (d + 0 - 53) (3 - 1024 - 53) - 0) with (d - 53) by lia.
    destruct (d - 53) as [|k|k] eqn:Ek; try lia.
    unfold binary_round_aux.
    rewrite (shr_fexp_wide (Zpos p) 0 k) by
      (replace (52 + Zpos k) with (d - 1) by lia;
       replace (53 + Zpos k) with d by lia; lia).
    assert (Hlocated : located (Zpos p) 1 (Zpos p) loc_Exact).
    { unfold located. cbv zeta. split; lia. }
    destruct (located_iter_shr_1 (Zpos p) k 1
                (shr_record_of_loc (Zpos p) loc_Exact)
                ltac:(lia) ltac:(simpl; lia) Hlocated) as [Em Hloc].
    simpl shr_m in Em. rewrite Z.mul_1_l in Hloc.
    set (mrs := SpecFloat.iter_pos shr_1 k _) in *.
    assert (Hk : 0 < 2 ^ Zpos k) by (apply Z.pow_pos_nonneg; lia).
    assert (Hq : 2 ^ 52 <= shr_m mrs < 2 ^ 53).
    { rewrite Em. split.
      - apply Z.div_le_lower_bound; [exact Hk|].
        rewrite <- Z.pow_add_r by lia.
        replace (Zpos k + 52) with (d - 1) by lia. exact Hlo.
      - apply Z.div_lt_upper_bound; [exact Hk|].
        rewrite <- Z.pow_add_r by lia.
        replace (Zpos k + 53) with d by lia. exact Hhi. }
    pose proof (located_round_nearest_even _ _ _ _ Hk Hloc) as Hnear.
    destruct (located_div _ _ _ _ Hloc) as [Eq _].
    set (m1 := round_nearest_even (shr_m mrs) (loc_of_shr_record mrs)) in *.
    assert (Hm1 : 2 ^ 52 <= m1 <= 2 ^ 53) by (destruct Hnear; lia).
    pose proof (binary_round_aux_finish s m1 (0 + Zpos k) Hm1 ltac:(lia))
      as Hfinish.
    destruct (shr_fexp prec emax m1 (0 + Zpos k) loc_Exact) as [mrs' e'].
    rewrite Hfinish.
    destruct (Z.ltb_spec m1 (2 ^ 53)) as [Hlt1|Hge1].
    - exists (Z.to_pos m1), (0 + Zpos k). rewrite Z2Pos.id by lia.
      split; [reflexivity|]. split; [lia|]. split; [lia|].
      rewrite Z.add_0_l. exact Hnear.
    - exists (Z.to_pos (2 ^ 52)), (0 + Zpos k + 1). rewrite Z2Pos.id by lia.
      split; [reflexivity|]. split; [lia|]. split; [lia|].
      replace (2 ^ (0 + Zpos k + 1)) with (2 * 2 ^ Zpos k).
      2:{ rewrite Z.add_0_l, Z.pow_add_r by lia. ring. }
      assert (m1 = 2 ^ 53) as E by lia. rewrite E in Hnear.
      apply near_carry; [exact Hk | exact Hnear | destruct Hnear; lia]. }
  destruct s; simpl; exact Hround.
Qed.

(** The integer division behind the division by [1e6], for the exponents
    of an integer up to 2^63. *)
Lemma SFdiv_core_binary_1e6_wide (m1 : positive) (e1 : Z) :
  2 ^ 52 <= Zpos m1 < 2 ^ 53 -> -52 <= e1 <= 11 ->
  SFdiv_core_binary prec emax (Zpos m1) e1 D1e6 (-33)
  = (Zpos m1 * 2 ^ 53 / D1e6, e1 - 20,
     new_location D1e6 ((Zpos m1 * 2 ^ 53) mod D1e6)).
Proof.
  intros Hm He. unfold SFdiv_core_binary.
  rewrite (Zdigits2_eq (Zpos m1) 53) by (simpl; lia).
  rewrite (Zdigits2_eq D1e6 53) by (unfold D1e6; simpl; lia).
  cbv zeta.
  replace (Z.min (fexp prec emax (53 + e1 - (53 + -33))) (e1 - -33))
    with (e1 - 20) by (unfold fexp, emin, prec, emax; lia).
  replace (e1 - -33 - (e1 - 20)) with 53 by lia.
  cbv iota beta.
  rewrite Z.shiftl_mul_pow2 by lia.
  unfold Z.div, Z.modulo.
  destruct (Z.div_eucl (Zpos m1 * 2 ^ 53) D1e6) as [q r]. reflexivity.
Qed.

(** The quotient by [1e6] of a normalised number with such an exponent. *)
Lemma double_div_1e6_wide (s : bool) (m1 : positive) (e1 : Z) :
  2 ^ 52 <= Zpos m1 < 2 ^ 53 -> -52 <= e1 <= 11 ->
  exists m e,
    double_div (S754_finite s m1 e1) double_1e6 = S754_finite s m e
    /\ ((e = e1 - 20 /\ near (Zpos m1 * 2 ^ 53) D1e6 (Zpos m))
        \/ (e = e1 - 19 /\ near (Zpos m1 * 2 ^ 53) (2 * D1e6) (Zpos m))).
Proof.
  intros Hm He.
  rewrite double_1e6_eq. unfold double_div, SFdiv.
  change (Zpos (Z.to_pos D1e6)) with D1e6.
  rewrite SFdiv_core_binary_1e6_wide by assumption.
  rewrite xorb_false_r.
  set (num := Zpos m1 * 2 ^ 53).
  assert (Hden : 0 < D1e6) by (unfold D1e6; lia).
  assert (Hq : 2 ^ 52 <= num / D1e6 < 2 ^ 54 - 2).
  { split.
    - apply Z.div_le_lower_bound; [exact Hden|]. subst num. unfold D1e6. lia.
    - apply Z.div_lt_upper_bound; [exact Hden|]. subst num. unfold D1e6. lia. }
  destruct (binary_round_aux_near s num D1e6 (num / D1e6) (e1 - 20)
              (new_location D1e6 (num mod D1e6)) Hden
              (located_new_location num D1e6 Hden eq_refl) Hq ltac:(lia))
    as (m & e & Hresult & _ & Hnear).
  exists m, e. split; [exact Hresult|].
  destruct Hnear as [[-> Hnear]|[-> Hnear]]; [left|right]; split;
    first [reflexivity | lia | assumption].
Qed.

(** Rounding the rounded quotient of a rounded integer: the result is
    within one of the nearest integer to the exact quotient. *)
Lemma near_round_wide (n n' U P2 m : Z) :
  0 < n -> 0 <= U <= 2048 -> n - U <= n' <= n + U -> 128 <= P2 ->
  near (n' * (2 * P2)) 1000000 m ->
  (2 * n + 1000000) / 2000000 - 1
  <= (m + P2) / (2 * P2)
  <= (2 * n + 1000000) / 2000000 + 1.
Proof.
  intros Hn HU Hn' HP2 [Hrange _].
  pose proof (Z.div_mod (n' * (2 * P2)) 1000000 ltac:(lia)) as Hq.
  pose proof (Z.mod_pos_bound (n' * (2 * P2)) 1000000 ltac:(lia)) as Hr.
  set (q := n' * (2 * P2) / 1000000) in *.
  set (r := (n' * (2 * P2)) mod 1000000) in *.
  pose proof (Z.div_mod (2 * n + 1000000) 2000000 ltac:(lia)) as HK.
  pose proof (Z.mod_pos_bound (2 * n + 1000000) 2000000 ltac:(lia)) as HKr.
  set (K := (2 * n + 1000000) / 2000000) in *.
  set (t := (2 * n + 1000000) mod 2000000) in *.
  pose proof (Z.div_mod (m + P2) (2 * P2) ltac:(lia)) as HR.
  pose proof (Z.mod_pos_bound (m + P2) (2 * P2) ltac:(lia)) as HRr.
  set (R := (m + P2) / (2 * P2)) in *.
  set (u := (m + P2) mod (2 * P2)) in *.
  (* everything times P2, with the products as unknowns *)
  assert (En' : n' * (2 * P2) = 2 * (n' * P2)) by ring.
  assert (ER : 2 * P2 * R = 2 * (R * P2)) by ring.
  assert (Hn'P : (n - U) * P2 <= n' * P2 <= (n + U) * P2) by nia.
  assert (HUP : 0 <= U * P2 <= 2048 * P2) by nia.
  assert (HKP : 2000000 * (K * P2) + t * P2 = 2 * (n * P2) + 1000000 * P2)
    by nia.
  assert (HtP : 0 <= t * P2 <= 1999999 * P2) by nia.
  replace ((n - U) * P2) with (n * P2 - U * P2) in Hn'P by ring.
  replace ((n + U) * P2) with (n * P2 + U * P2) in Hn'P by ring.
  set (nP := n * P2) in *. set (n'P := n' * P2) in *.
  set (UP := U * P2) in *. set (KP := K * P2) in *.
  set (tP := t * P2) in *. set (RP := R * P2) in *.
  assert (Hlow : 2000000 * KP < 2000000 * RP + 2004096 * P2) by lia.
  assert (Hhigh : 2000000 * RP <= 2000000 * KP + 2004095 * P2 + 1000000)
    by lia.
  subst RP KP. split; nia.
Qed.

(** The computation of the source on a count of nanoseconds from 2^53 up
    to 2^63 in magnitude. *)
Lemma delay_of_nanoseconds_wide (s : bool) (p : positive) :
  2 ^ 53 <= Zpos p < 2 ^ 63 ->
  exists delay,
    int64_of_double
      (std_round
         (double_div (double_of_int64 (cond_Zopp s (Zpos p))) double_1e6))
    = Some (cond_Zopp s delay)
    /\ (2 * Zpos p + 1000000) / 2000000 - 1
       <= delay
       <= (2 * Zpos p + 1000000) / 2000000 + 1.
Proof.
  intros Hp. unfold double_of_int64.
  destruct (binary_normalize_wide s false p Hp)
    as (m1 & e1 & -> & Hm1 & He1 & Hnear1).
  destruct (double_div_1e6_wide s m1 e1 Hm1 ltac:(lia)) as (m & e & -> & Hnear).
  assert (Hpow1 : 0 < 2 ^ e1) by (apply Z.pow_pos_nonneg; lia).
  (* the converted integer, and how far it is from [p] *)
  set (n' := Zpos m1 * 2 ^ e1).
  assert (Hn' : Zpos p - 2 ^ e1 <= n' <= Zpos p + 2 ^ e1).
  { destruct Hnear1 as [Hrange _].
    pose proof (Z.div_mod (Zpos p) (2 ^ e1) ltac:(lia)) as Hdiv.
    pose proof (Z.mod_pos_bound (Zpos p) (2 ^ e1) Hpow1) as Hmod.
    subst n'. nia. }
  assert (HU : 0 <= 2 ^ e1 <= 2048).
  { split; [lia|]. change 2048 with (2 ^ 11). apply Z.pow_le_mono_r; lia. }
  (* the rounded quotient is near [n' / 10^6] at the scale 2^e *)
  assert (Hscaled : -31 <= e <= -8
                    /\ near (n' * (2 * 2 ^ (- e - 1))) 1000000 (Zpos m)).
  { destruct Hnear as [[-> Hnear]|[-> Hnear]]; (split; [lia|]).
    - apply (near_scale (2 ^ 33)); [lia|lia|].
      replace (2 ^ 33 * (n' * (2 * 2 ^ (- (e1 - 20) - 1))))
        with (Zpos m1 * 2 ^ 53).
      + exact Hnear.
      + subst n'.
        replace (2 * 2 ^ (- (e1 - 20) - 1)) with (2 ^ (20 - e1)).
        2:{ rewrite <- Z.pow_succ_r by lia. f_equal. lia. }
        replace (2 ^ 53) with (2 ^ e1 * 2 ^ (20 - e1) * 2 ^ 33).
        2:{ rewrite <- !Z.pow_add_r by lia. f_equal. lia. }
        ring.
    - apply (near_scale (2 ^ 34)); [lia|lia|].
      replace (2 ^ 34 * (n' * (2 * 2 ^ (- (e1 - 19) - 1))))
        with (Zpos m1 * 2 ^ 53).
      + exact Hnear.
      + subst n'.
        replace (2 * 2 ^ (- (e1 - 19) - 1)) with (2 ^ (19 - e1)).
        2:{ rewrite <- Z.pow_succ_r by lia. f_equal. lia. }
        replace (2 ^ 53) with (2 ^ e1 * 2 ^ (19 - e1) * 2 ^ 34).
        2:{ rewrite <- !Z.pow_add_r by lia. f_equal. lia. }
        ring. }
  destruct Hscaled as [He Hscaled].
  assert (HP2 : 128 <= 2 ^ (- e - 1)).
  { change 128 with (2 ^ 7). apply Z.pow_le_mono_r; lia. }
  pose proof (near_round_wide (Zpos p) n' (2 ^ e1) (2 ^ (- e - 1)) (Zpos m)
                ltac:(lia) HU Hn' HP2 Hscaled) as Hround.
  unfold std_round.
  destruct (Z.leb_spec 0 e) as [Hbad|_]; [lia|].
  replace (2 ^ (- e)) with (2 * 2 ^ (- e - 1)).
  2:{ rewrite <- Z.pow_succ_r by lia. f_equal. lia. }
  set (K := (2 * Zpos p + 1000000) / 2000000) in *.
  set (R := (Zpos m + 2 ^ (- e - 1)) / (2 * 2 ^ (- e - 1))) in *.
  assert (HK : 2 ^ 32 <= K < 2 ^ 44).
  { subst K. split.
    - apply Z.div_le_lower_bound; lia.
    - apply Z.div_lt_upper_bound; lia. }
  exists R. split; [|exact Hround].
  destruct R as [|r|r] eqn:ER; try lia.
  destruct (binary_normalize_exact s s r ltac:(lia))
    as (mR & eR & -> & HvalueR & HeR & _).
  apply int64_of_double_integer; [exact HvalueR | exact HeR | lia].
Qed.

(** X18.  For every sum that fits the 64-bit count of nanoseconds, the
    conversion to [int64_t] at the end of the computation is defined, and
    the delay returned is the nearest millisecond or one next to it. *)
Theorem linear_delay_off_by_at_most_one
  (concurrency : Z) (minimal_delay delay_factor : Duration) :
  let total :=
    DurationToNanoseconds minimal_delay
    + concurrency * DurationToNanoseconds delay_factor in
  - 2 ^ 63 < total < 2 ^ 63 ->
  exists delay,
    computeConcurrencyBasedLinearDelayMs concurrency minimal_delay delay_factor
    = Some delay
    /\ Z.abs (delay - round_half_away total 1000000) <= 1.
Proof.
  intros total Htotal. unfold computeConcurrencyBasedLinearDelayMs.
  rewrite linear_delay_nanoseconds. fold total.
  destruct (Z.ltb_spec (Z.abs total) (2 ^ 53)) as [Hsmall|Hlarge].
  - rewrite delay_of_total by lia.
    eexists. split; [reflexivity|]. rewrite Z.sub_diag. simpl. lia.
  - unfold round_half_away. destruct total as [|p|p]; [simpl in Hlarge; lia| |].
    + destruct (delay_of_nanoseconds_wide false p ltac:(lia))
        as (delay & Hdelay & Hbound).
      unfold cond_Zopp in Hdelay. rewrite Hdelay.
      exists delay. split; [reflexivity|].
      change (Z.sgn (Zpos p)) with 1. change (Z.abs (Zpos p)) with (Zpos p).
      change (2 * 1000000) with 2000000. lia.
    + destruct (delay_of_nanoseconds_wide true p ltac:(lia))
        as (delay & Hdelay & Hbound).
      unfold cond_Zopp in Hdelay. change (- Zpos p) with (Zneg p) in Hdelay.
      rewrite Hdelay.
      exists (- delay). split; [reflexivity|].
      change (Z.sgn (Zneg p)) with (-1). change (Z.abs (Zneg p)) with (Zpos p).
      change (2 * 1000000) with 2000000. lia.
Qed.

(** ** The further properties at concrete inputs *)

Lemma resolutions_keep_stored_objects_witness :
  let base := time_tracking_base (fst example_time_tracking) in
  let store := snd example_time_tracking in
  let requests :=
    [(base, example_headers_override); (base, example_headers_duplicate);
     (base, example_headers_override)] in
  store !! 0%nat = Some example_base
  /\ @computeEffectiveConfiguration_each ExampleApi requests store !! 0%nat
     = Some example_base.
Proof.
  split; [reflexivity|].
  apply (@resolutions_keep_stored_objects ExampleApi). reflexivity.
Defined.

Lemma computeEffectiveConfiguration_returns_live_object_witness :
  let self := time_tracking_base (fst example_time_tracking) in
  let store := snd example_time_tracking in
  let result :=
    @computeEffectiveConfiguration ExampleApi self example_headers_override
      store in
  store !! server_config_ self = Some example_base
  /\ fst result = OkValue 1%nat
  /\ exists object,
       snd result !! 1%nat = Some object
       /\ ((get (@TestServerConfig ExampleApi) example_headers_override = []
            /\ 1%nat = server_config_ self /\ object = example_base)
           \/ (length (get (@TestServerConfig ExampleApi)
                         example_headers_override) = 1%nat
               /\ store !! 1%nat = None /\ 1%nat <> server_config_ self)).
Proof.
  split; [reflexivity|]. split; [reflexivity|].
  apply (@computeEffectiveConfiguration_returns_live_object ExampleApi
           (time_tracking_base (fst example_time_tracking))
           example_headers_override (snd example_time_tracking)
           example_base 1%nat);
    reflexivity.
Defined.

Lemma computeEffectiveConfiguration_errors_witness :
  let self := time_tracking_base (fst example_time_tracking) in
  let store := snd example_time_tracking in
  let headers :=
    [("x-nighthawk-test-server-config", "not json")] in
  let result := @computeEffectiveConfiguration ExampleApi self headers store in
  fst result
  = ErrorStatus kInvalidArgument "Error merging json config: unable to parse"
  /\ (kInvalidArgument = kInvalidArgument
      /\ snd result = store
      /\ get (@TestServerConfig ExampleApi) headers <> []
      /\ ((2 <= length (get (@TestServerConfig ExampleApi) headers))%nat ->
          "Error merging json config: unable to parse"
          = "Received multiple configuration headers in the request, expected only one.")
      /\ (forall value,
            get (@TestServerConfig ExampleApi) headers = [value] ->
            let merge :=
              @mergeJsonConfig ExampleApi value
                (@deref ExampleApi store (server_config_ self)) "" in
            fst (fst merge) = false
            /\ snd merge = "Error merging json config: unable to parse")).
Proof.
  split; [reflexivity|].
  apply (@computeEffectiveConfiguration_errors ExampleApi
           (time_tracking_base (fst example_time_tracking))
           [("x-nighthawk-test-server-config", "not json")]
           (snd example_time_tracking)).
  reflexivity.
Defined.

Lemma computeEffectiveConfiguration_ignores_other_headers_witness :
  let self := time_tracking_base (fst example_time_tracking) in
  let store := snd example_time_tracking in
  let override :=
    ("x-nighthawk-test-server-config", "{response_code: 429}") in
  "accept" <> @TestServerConfig ExampleApi
  /\ @computeEffectiveConfiguration ExampleApi self
       ([(":path", "/")] ++ ("accept", "*/*") :: [override]) store
     = @computeEffectiveConfiguration ExampleApi self
         ([(":path", "/")] ++ [override]) store.
Proof.
  split; [discriminate|].
  apply (@computeEffectiveConfiguration_ignores_other_headers ExampleApi).
  discriminate.
Defined.

Lemma resolved_request_gets_no_local_reply_witness :
  let config := fst example_time_tracking in
  let store := snd example_time_tracking in
  let final :=
    @decode_calls ExampleApi config (HttpTimeTrackingFilter_new, store)
      (CallDecodeHeaders example_headers_override false
         :: map CallDecodeData [false; true]) in
  fst (@computeEffectiveConfiguration ExampleApi (time_tracking_base config)
         example_headers_override store) = OkValue 1%nat
  /\ (local_replies (decoder_callbacks_ (fst final)) = []
      /\ effective_config_ (fst final) = OkValue 1%nat
      /\ snd final
         = snd (@computeEffectiveConfiguration ExampleApi
                  (time_tracking_base config) example_headers_override store)).
Proof.
  split; [reflexivity|].
  apply (@resolved_request_gets_no_local_reply ExampleApi
           (fst example_time_tracking) HttpTimeTrackingFilter_new
           example_headers_override false [false; true]
           (snd example_time_tracking) 1%nat).
  reflexivity.
Defined.

Lemma time_tracking_rejects_duplicate_override_witness :
  (2 <= length (get (@TestServerConfig ExampleApi) example_headers_duplicate))%nat
  /\ (let '(config, store) :=
        @HttpTimeTrackingFilterConfig_new ExampleApi example_base [] in
      let '(status, after, store') :=
        @decodeHeaders ExampleApi config HttpTimeTrackingFilter_new
          example_headers_duplicate true store in
      status = HeadersStopIteration
      /\ store' = store
      /\ local_replies (decoder_callbacks_ after)
         = local_replies (decoder_callbacks_ HttpTimeTrackingFilter_new)
           ++ [(500,
                "time-tracking didn't understand the request: Received multiple configuration headers in the request, expected only one.")]).
Proof.
  split; [simpl; lia|].
  apply (@time_tracking_rejects_duplicate_override ExampleApi example_base []
           HttpTimeTrackingFilter_new example_headers_duplicate).
  simpl; lia.
Defined.

Lemma time_tracking_uses_constructed_configuration_witness :
  let waiting :=
    {| effective_config_ := StatusOr_default;
       last_request_delta_ns_ := 5000000;
       decoder_callbacks_ := {| local_replies := [] |} |} in
  get (@TestServerConfig ExampleApi) example_headers_plain = []
  /\ (let '(config, store) :=
        @HttpTimeTrackingFilterConfig_new ExampleApi example_base [] in
      let '(_, after, store') :=
        @decodeHeaders ExampleApi config waiting example_headers_plain true
          store in
      @encodeHeaders ExampleApi after [(":status", "200")] store'
      = (HeadersContinue, [(":status", "200"); ("x-gap-ns", "5000000")])).
Proof.
  split; [reflexivity|].
  exact (@time_tracking_uses_constructed_configuration ExampleApi example_base
           []
           {| effective_config_ := StatusOr_default;
              last_request_delta_ns_ := 5000000;
              decoder_callbacks_ := {| local_replies := [] |} |}
           example_headers_plain true [(":status", "200")] eq_refl).
Defined.

Lemma encodeHeaders_keeps_other_headers_witness :
  let filter :=
    {| effective_config_ := OkValue 0%nat;
       last_request_delta_ns_ := 42;
       decoder_callbacks_ := {| local_replies := [] |} |} in
  let store := snd example_time_tracking in
  let response_headers :=
    [(":status", "200"); ("content-type", "text/plain"); ("x-gap-ns", "7")] in
  (forall p,
      effective_config_ filter = OkValue p ->
      "content-type"
      <> LowerCaseString
           (@emit_previous_request_delta_in_response_header ExampleApi
              (@deref ExampleApi store p)))
  /\ (get "content-type"
        (snd (@encodeHeaders ExampleApi filter response_headers store))
      = ["text/plain"]
      /\ (3 <= length (snd (@encodeHeaders ExampleApi filter response_headers
                              store)) <= 3 + 1)%nat).
Proof.
  split; [intros p [= <-]; discriminate|].
  apply (@encodeHeaders_keeps_other_headers ExampleApi
           {| effective_config_ := OkValue 0%nat;
              last_request_delta_ns_ := 42;
              decoder_callbacks_ := {| local_replies := [] |} |}
           [(":status", "200"); ("content-type", "text/plain");
            ("x-gap-ns", "7")]
           (snd example_time_tracking) "content-type").
  intros p [= <-]; discriminate.
Defined.

Lemma linear_delay_of_whole_milliseconds_witness :
  - 9007199254 <= 250 + 7 * 20 <= 9007199254
  /\ computeConcurrencyBasedLinearDelayMs 7 (milliseconds 250)
       (milliseconds 20)
     = Some (250 + 7 * 20).
Proof.
  split; [lia|].
  apply (linear_delay_of_whole_milliseconds 7 250 20). lia.
Defined.

Lemma linear_delay_grows_with_concurrency_witness :
  let minimal_delay := {| seconds := 0; nanos := 1500000 |} in
  let delay_factor := {| seconds := 0; nanos := 300000 |} in
  2 <= 9
  /\ 0 <= DurationToNanoseconds delay_factor
  /\ - 2 ^ 53 < DurationToNanoseconds minimal_delay
                + 2 * DurationToNanoseconds delay_factor
  /\ DurationToNanoseconds minimal_delay
     + 9 * DurationToNanoseconds delay_factor < 2 ^ 53
  /\ exists delay_low delay_high,
       computeConcurrencyBasedLinearDelayMs 2 minimal_delay delay_factor
       = Some delay_low
       /\ computeConcurrencyBasedLinearDelayMs 9 minimal_delay delay_factor
          = Some delay_high
       /\ delay_low <= delay_high.
Proof.
  split; [lia|]. split; [vm_compute; discriminate|].
  split; [vm_compute; reflexivity|]. split; [vm_compute; reflexivity|].
  apply (linear_delay_grows_with_concurrency 2 9
           {| seconds := 0; nanos := 1500000 |}
           {| seconds := 0; nanos := 300000 |}).
  - lia.
  - vm_compute; discriminate.
  - vm_compute; reflexivity.
  - vm_compute; reflexivity.
Defined.

Lemma linear_delay_within_half_millisecond_witness :
  let minimal_delay := {| seconds := 1; nanos := 250000 |} in
  let delay_factor := {| seconds := 0; nanos := 125000 |} in
  let total :=
    DurationToNanoseconds minimal_delay
    + 2 * DurationToNanoseconds delay_factor in
  - 2 ^ 53 < total < 2 ^ 53
  /\ exists delay,
       computeConcurrencyBasedLinearDelayMs 2 minimal_delay delay_factor
       = Some delay
       /\ 2 * Z.abs (total - delay * 1000000) <= 1000000
       /\ (2 * Z.abs (total - delay * 1000000) = 1000000 ->
           Z.abs total < Z.abs (delay * 1000000)).
Proof.
  split; [vm_compute; split; reflexivity|].
  apply (linear_delay_within_half_millisecond 2
           {| seconds := 1; nanos := 250000 |}
           {| seconds := 0; nanos := 125000 |}).
  vm_compute; split; reflexivity.
Defined.

Lemma linear_delay_zero_below_half_millisecond_witness :
  let minimal_delay := {| seconds := 0; nanos := 100000 |} in
  let delay_factor := {| seconds := 0; nanos := 99999 |} in
  let total :=
    DurationToNanoseconds minimal_delay
    + 4 * DurationToNanoseconds delay_factor in
  - 2 ^ 53 < total < 2 ^ 53
  /\ exists delay,
       computeConcurrencyBasedLinearDelayMs 4 minimal_delay delay_factor
       = Some delay
       /\ (delay = 0 <-> - 500000 < total < 500000)
       /\ (500000 <= total -> 0 < delay)
       /\ (total <= - 500000 -> delay < 0).
Proof.
  split; [vm_compute; split; reflexivity|].
  apply (linear_delay_zero_below_half_millisecond 4
           {| seconds := 0; nanos := 100000 |}
           {| seconds := 0; nanos := 99999 |}).
  vm_compute; split; reflexivity.
Defined.

Lemma linear_delay_off_by_at_most_one_witness :
  let minimal_delay := {| seconds := 9007199; nanos := 255000000 |} in
  let delay_factor := {| seconds := 0; nanos := 499999 |} in
  let total :=
    DurationToNanoseconds minimal_delay
    + 1 * DurationToNanoseconds delay_factor in
  - 2 ^ 63 < total < 2 ^ 63
  /\ exists delay,
       computeConcurrencyBasedLinearDelayMs 1 minimal_delay delay_factor
       = Some delay
       /\ Z.abs (delay - round_half_away total 1000000) <= 1.
Proof.
  split; [vm_compute; split; reflexivity|].
  apply (linear_delay_off_by_at_most_one 1
           {| seconds := 9007199; nanos := 255000000 |}
           {| seconds := 0; nanos := 499999 |}).
  vm_compute; split; reflexivity.
Defined.

(** ** Requests do not influence each other *)

Section ResolutionHistory.
Context `{ServerApi}.

(** X19.  The message of a failed merge reaches the client as it is: a
    request that ends with its headers and carries one override value that
    the merge rejects is answered with status 500 and the body made of the
    filter name, [didn't understand the request:] and that message; the
    iteration stops and nothing is allocated. *)
Theorem rejected_override_message_reaches_client
  (config : HttpTimeTrackingFilterConfig) (self : HttpTimeTrackingFilter)
  (headers : HeaderMap) (store : Store) (value message : string)
  (response_options : ResponseOptions) :
  get TestServerConfig headers = [value] ->
  mergeJsonConfig value
    (deref store (server_config_ (time_tracking_base config))) ""
  = (false, response_options, message) ->
  let '(status, after, store') :=
    decodeHeaders config self headers true store in
  status = HeadersStopIteration
  /\ store' = store
  /\ effective_config_ after = InvalidArgumentError message
  /\ local_replies (decoder_callbacks_ after)
     = local_replies (decoder_callbacks_ self)
       ++ [(500,
            filter_name_ (time_tracking_base config)
              +:+ " didn't understand the request: " +:+ message)].
Proof.
  intros Hget Hmerge. unfold decodeHeaders.
  rewrite computeEffectiveConfiguration_cases, Hget, Hmerge.
  simpl. repeat split.
Qed.

(** X20.  The outcome of a resolution depends on the base configuration
    and on the request headers only, not on the requests resolved before:
    resolving the same headers again, after any other resolutions through
    any configuration objects, gives a configuration of the same content,
    or the same error. *)
Theorem resolution_does_not_depend_on_history
  (self : FilterConfigurationBase) (headers : HeaderMap) (store : Store)
  (base : ResponseOptions)
  (between : list (FilterConfigurationBase * HeaderMap)) :
  store !! server_config_ self = Some base ->
  let first := computeEffectiveConfiguration self headers store in
  let later :=
    computeEffectiveConfiguration self headers
      (computeEffectiveConfiguration_each between (snd first)) in
  match fst first, fst later with
  | OkValue p1, OkValue p2 =>
      exists object,
        snd first !! p1 = Some object /\ snd later !! p2 = Some object
  | ErrorStatus code1 message1, ErrorStatus code2 message2 =>
      code1 = code2 /\ message1 = message2
  | _, _ => False
  end.
Proof.
  intros Hbase first later. subst first later.
  set (store1 := snd (computeEffectiveConfiguration self headers store)).
  set (store2 := computeEffectiveConfiguration_each between store1).
  assert (Hbase2 : store2 !! server_config_ self = Some base).
  { subst store2.
    destruct (computeEffectiveConfiguration_each_extends between store1)
      as [extra2 ->].
    apply lookup_app_old. subst store1.
    destruct (computeEffectiveConfiguration_extends self headers store)
      as [extra1 ->].
    apply lookup_app_old. exact Hbase. }
  assert (Hderef : deref store2 (server_config_ self)
                   = deref store (server_config_ self)).
  { rewrite (deref_lookup _ _ _ Hbase), (deref_lookup _ _ _ Hbase2).
    reflexivity. }
  subst store1.
  rewrite (computeEffectiveConfiguration_cases self headers store2).
  revert store2 Hbase2 Hderef.
  rewrite (computeEffectiveConfiguration_cases self headers store).
  intros store2 Hbase2 Hderef.
  destruct (get TestServerConfig headers) as [|value [|second rest]].
  - simpl. exists base. split; assumption.
  - rewrite Hderef.
    destruct (mergeJsonConfig value _ _) as [[merged options] message].
    destruct merged; simpl.
    + exists options. split; apply list_lookup_middle; reflexivity.
    + split; reflexivity.
  - simpl. split; reflexivity.
Qed.

End ResolutionHistory.

Lemma rejected_override_message_reaches_client_witness :
  let config := fst example_time_tracking in
  let store := snd example_time_tracking in
  let headers := [("x-nighthawk-test-server-config", "not json")] in
  get (@TestServerConfig ExampleApi) headers = ["not json"]
  /\ @mergeJsonConfig ExampleApi "not json"
       (@deref ExampleApi store (server_config_ (time_tracking_base config)))
       ""
     = (false, example_base, "Error merging json config: unable to parse")
  /\ (let '(status, after, store') :=
        @decodeHeaders ExampleApi config HttpTimeTrackingFilter_new headers
          true store in
      status = HeadersStopIteration
      /\ store' = store
      /\ effective_config_ after
         = InvalidArgumentError "Error merging json config: unable to parse"
      /\ local_replies (decoder_callbacks_ after)
         = [(500,
             "time-tracking didn't understand the request: Error merging json config: unable to parse")]).
Proof.
  split; [reflexivity|]. split; [reflexivity|].
  exact (@rejected_override_message_reaches_client ExampleApi
           (fst example_time_tracking) HttpTimeTrackingFilter_new
           [("x-nighthawk-test-server-config", "not json")]
           (snd example_time_tracking) "not json"
           "Error merging json config: unable to parse" example_base
           eq_refl eq_refl).
Defined.

Lemma resolution_does_not_depend_on_history_witness :
  let self := time_tracking_base (fst example_time_tracking) in
  let store := snd example_time_tracking in
  let first :=
    @computeEffectiveConfiguration ExampleApi self example_headers_override
      store in
  let later :=
    @computeEffectiveConfiguration ExampleApi self example_headers_override
      (@computeEffectiveConfiguration_each ExampleApi
         [(self, example_headers_duplicate); (self, example_headers_override)]
         (snd first)) in
  store !! server_config_ self = Some example_base
  /\ fst first = OkValue 1%nat
  /\ fst later = OkValue 3%nat
  /\ exists object,
       snd first !! 1%nat = Some object /\ snd later !! 3%nat = Some object.
Proof.
  split; [reflexivity|]. split; [reflexivity|]. split; [reflexivity|].
  exact (@resolution_does_not_depend_on_history ExampleApi
           (time_tracking_base (fst example_time_tracking))
           example_headers_override (snd example_time_tracking) example_base
           [(time_tracking_base (fst example_time_tracking),
             example_headers_duplicate);
            (time_tracking_base (fst example_time_tracking),
             example_headers_override)]
           eq_refl).
Defined.
